(** * AIFO-STFQ qdisc options: parsing, netlink encoding and printing

    A shallow embedding of [q_aifo_stfq.c]: the option parser
    [aifo_parse_opt], the options printer [aifo_print_opt] and the statistics
    printer [aifo_print_xstats], over a byte-level model of the rtnetlink
    attribute helpers they call. *)

From Stdlib Require Import ZArith Lia String Ascii List.
From stdpp Require Import base list strings.

Local Open Scope list_scope.
Local Open Scope Z_scope.

(** ** Fixed-width integers

    C integers are values in [Z] with their wrap-around written out. *)

Definition u16 (x : Z) : Z := x mod 2 ^ 16.
Definition u32 (x : Z) : Z := x mod 2 ^ 32.
Definition size_t (x : Z) : Z := x mod 2 ^ 64.
Definition int (x : Z) : Z := (x + 2 ^ 31) mod 2 ^ 32 - 2 ^ 31.

Definition sizeof_u16 : Z := 2.
Definition sizeof_u32 : Z := 4.

(** ** Memory and host byte order

    Memory is a list of bytes (each a [Z] in 0..255). A pointer into a
    buffer is the list of bytes from the pointed address to the end of the
    buffer, so pointer arithmetic is [drop]. Netlink attributes are in
    host byte order; the development is parametric in it. *)

Class ByteOrder := big_endian : bool.

Fixpoint le_bytes (n : nat) (v : Z) : list Z :=
  match n with
  | O => []
  | S n' => v mod 256 :: le_bytes n' (v / 256)
  end.

Fixpoint le_value (bs : list Z) : Z :=
  match bs with
  | [] => 0
  | b :: bs' => b + 256 * le_value bs'
  end.

Section HostOrder.
Context `{ByteOrder}.

(** The [n] bytes of the object representation of [v]. *)
Definition to_bytes (n : nat) (v : Z) : list Z :=
  if big_endian then reverse (le_bytes n v) else le_bytes n v.

Definition of_bytes (bs : list Z) : Z :=
  le_value (if big_endian then reverse bs else bs).

(** Reading an [n]-byte unsigned integer through a pointer. A read that
    runs past the end of the modelled buffer sees only the bytes that
    exist there (undefined behaviour in C). *)
Definition peek (n : nat) (p : list Z) : Z := of_bytes (take n p).
End HostOrder.

(** Writing bytes at an offset of a buffer; a write that does not fit in the
    modelled buffer is dropped (undefined behaviour in C). *)
Definition poke (off : Z) (bs m : list Z) : list Z :=
  if (0 <=? off) && (off + Z.of_nat (length bs) <=? Z.of_nat (length m))
  then take (Z.to_nat off) m ++ bs ++ drop (Z.to_nat off + length bs) m
  else m.

(** ** Diagnostics and printed output

    What the code writes to stderr, one constructor per message, and what
    it hands to the print_uint and print_float helpers. The failures the
    spec names are told apart by their message: InvalidInteger is
    [Illegal], ValueTooLarge is [TooBig], UnknownOption is [Unknown] followed
    by [Usage], HelpRequested is [Usage] alone, MissingArgument is
    [Incomplete] and BufferOverflow is [Exceeded]. *)

Inductive diag : Type :=
  | Illegal (opt : string)            (* Illegal <opt> *)
  | TooBig (opt : string)             (* Value for <opt> too big *)
  | Unknown (id arg : string)         (* <id>: unknown parameter <arg> *)
  | Usage                             (* explain () *)
  | Incomplete                        (* no argument left after an option name *)
  | Exceeded (maxlen : Z)             (* addattr_l ERROR: message exceeded bound *)
  | Deficit (len rta_len : Z).        (* !!!Deficit <len>, rta_len=<rta_len> *)

Inductive out : Type :=
  | Uint (key fmt : string) (value : Z)
  | Float (key fmt : string) (num den : Z)
  | Undefined (key fmt : string).     (* an argument that C leaves undefined *)

(** ** Attributes in memory: the rtattr macros *)

(** Modelled from the spec: struct rtattr and the RTA_ and NLMSG_ macros
    (linux/rtnetlink.h, linux/netlink.h) are not under src/. The spec
    (section 6) takes byte order, padding and the nest marker from the host
    transport; that layout is a four-byte header of two host-order 16-bit
    fields, rta_len (header plus payload) then rta_type, followed by the
    payload and by padding to a multiple of four. The alignments are
    computed in unsigned int, as ALIGNTO is 4U. *)
Definition sizeof_rtattr : Z := 4.
Definition RTA_ALIGNTO : Z := 4.

Definition RTA_ALIGN (len : Z) : Z :=
  u32 (Z.land (len + RTA_ALIGNTO - 1) (Z.lnot (RTA_ALIGNTO - 1))).

Definition RTA_LENGTH (len : Z) : Z := RTA_ALIGN sizeof_rtattr + len.

Definition NLMSG_ALIGNTO : Z := 4.

Definition NLMSG_ALIGN (len : Z) : Z :=
  u32 (Z.land (len + NLMSG_ALIGNTO - 1) (Z.lnot (NLMSG_ALIGNTO - 1))).

(** Modelled from the spec: constants of the headers that are not under
    src/: the nested-attribute flag, the type of the options attribute of a
    qdisc message, and the message bound of tc_util.h. *)
Definition NLA_F_NESTED : Z := Z.shiftl 1 15.
Definition TCA_OPTIONS : Z := 2.
Definition MAX_MSG : Z := 16384.

Section Rtattr.
Context `{ByteOrder}.

(** Modelled from the spec: the fields of struct rtattr and the accessor
    macros, which are not under src/. RTA_PAYLOAD is the payload_len of
    the spec (section 6). *)
Definition rta_len (rta : list Z) : Z := peek 2 rta.
Definition rta_type (rta : list Z) : Z := peek 2 (drop 2 rta).

Definition RTA_DATA (rta : list Z) : list Z :=
  drop (Z.to_nat (RTA_LENGTH 0)) rta.

(** The subtraction is done in size_t, as RTA_LENGTH is built on sizeof. *)
Definition RTA_PAYLOAD (rta : list Z) : Z :=
  size_t (rta_len rta - RTA_LENGTH 0).

Definition RTA_OK (rta : list Z) (len : Z) : bool :=
  (sizeof_rtattr <=? len) && (sizeof_rtattr <=? rta_len rta)
  && (rta_len rta <=? len).

Definition rta_getattr_u32 (rta : list Z) : Z := peek 4 (RTA_DATA rta).
Definition rta_getattr_u16 (rta : list Z) : Z := peek 2 (RTA_DATA rta).

(** tb[i], a NULL pointer being [None]. *)
Definition tb_get (tb : list (option (list Z))) (i : Z) : option (list Z) :=
  match tb !! Z.to_nat i with
  | Some e => e
  | None => None
  end.

(** Modelled from the spec: parse_rtattr_flags and parse_rtattr_nested of
    libnetlink are not under src/; they are the parse_nested of the spec
    (section 6), which builds a table indexed by tag and ignores unknown
    tags. The loop is the RTA_OK / RTA_NEXT walk over [len] bytes, the
    first attribute of a type wins, a remainder is reported on stderr and
    the function returns 0. Every round takes at least four bytes off
    [len], so [Z.to_nat len] rounds are enough
    ([parse_rtattr_loop_fuel]). *)
Fixpoint parse_rtattr_loop (fuel : nat) (max flags : Z)
    (tb : list (option (list Z))) (rta : list Z) (len : Z)
    : list (option (list Z)) * list Z * Z :=
  match fuel with
  | O => (tb, rta, len)
  | S fuel' =>
    if RTA_OK rta len then
      let type := u16 (Z.land (rta_type rta) (Z.lnot flags)) in
      let tb' :=
        if (type <=? max) && negb (bool_decide (is_Some (tb_get tb type)))
        then <[Z.to_nat type := Some rta]> tb
        else tb in
      parse_rtattr_loop fuel' max flags tb'
        (drop (Z.to_nat (RTA_ALIGN (rta_len rta))) rta)
        (int (len - RTA_ALIGN (rta_len rta)))
    else (tb, rta, len)
  end.

Definition parse_rtattr_flags (max : Z) (rta : list Z) (len flags : Z)
    : Z * list (option (list Z)) * list diag :=
  let tb := replicate (Z.to_nat (max + 1)) None in
  let '(tb, rta, len) :=
    parse_rtattr_loop (Z.to_nat len) max flags tb rta len in
  (0, tb, if len =? 0 then [] else [Deficit len (rta_len rta)]).

Definition parse_rtattr_nested (max : Z) (rta : list Z)
    : Z * list (option (list Z)) * list diag :=
  parse_rtattr_flags max (RTA_DATA rta) (int (RTA_PAYLOAD rta)) NLA_F_NESTED.
End Rtattr.

(** ** The AIFO attribute tags and the statistics structure *)

Definition AIFO_SAMPLE_SIZE_MAX : Z := 1024.

Definition TCA_AIFO_UNSPEC : Z := 0.
Definition TCA_AIFO_PLIMIT : Z := 1.
Definition TCA_AIFO_BURST : Z := 2.
Definition TCA_AIFO_BUCKETS_LOG : Z := 3.
Definition TCA_AIFO_HASH_MASK : Z := 4.
Definition TCA_AIFO_FLOW_PLIMIT : Z := 5.
Definition TCA_AIFO_SAMPLE_SIZE : Z := 6.
Definition TCA_AIFO_SAMPLE_PERIOD : Z := 7.
Definition TCA_AIFO_FLAGS : Z := 8.
Definition __TCA_AIFO_MAX : Z := 9.
Definition TCA_AIFO_MAX : Z := __TCA_AIFO_MAX - 1.

(** struct tc_aifo_xstats, with the natural alignment of its 64-bit member:
    flows at 0, flows_gc at 8, then six 32-bit members from 16 to 36. *)
Definition sizeof_tc_aifo_xstats : Z := 40.
Definition off_flows : nat := 0.
Definition off_flows_gc : nat := 8.
Definition off_alloc_errors : nat := 16.
Definition off_no_mark : nat := 20.
Definition off_drop_mark : nat := 24.
Definition off_qlen_peak : nat := 28.
Definition off_backlog_peak : nat := 32.
Definition off_quant_avg_1k : nat := 36.

(** ** ilog2 *)

Fixpoint ilog2_loop (fuel : nat) (val res : Z) : Z :=
  match fuel with
  | O => res
  | S fuel' =>
    if val =? 0 then res
    else ilog2_loop fuel' (Z.shiftr val 1) (u32 (res + 1))
  end.

(** [val] is an unsigned int, so the loop runs at most 32 times. *)
Definition ilog2 (val : Z) : Z := ilog2_loop 32 (u32 (val - 1)) 0.

(** ** Printing the options: aifo_print_opt *)

Section Printing.
Context `{ByteOrder}.

(** One [if (tb[tag] && RTA_PAYLOAD(tb[tag]) >= size) { ... print ... }]
    block; the comparison is unsigned, in size_t. *)
Definition print_if (tb : list (option (list Z))) (tag size : Z)
    (print : list Z -> out) : list out :=
  match tb_get tb tag with
  | Some rta => if size <=? RTA_PAYLOAD rta then [print rta] else []
  | None => []
  end.

(** [opt] is [None] for a NULL pointer. The result is the return value,
    what was printed, and what went to stderr. [1U << buckets_log] has a
    value up to a count of 31, which fits an unsigned int; from 32 on the
    shift is undefined in C and the item printed is [Undefined]. *)
Definition aifo_print_opt (opt : option (list Z))
    : Z * list out * list diag :=
  match opt with
  | None => (0, [], [])
  | Some opt =>
    let '(_, tb, err) := parse_rtattr_nested TCA_AIFO_MAX opt in
    (0,
     print_if tb TCA_AIFO_PLIMIT sizeof_u32
       (fun rta => Uint "limit" "limit %up " (rta_getattr_u32 rta))
     ++ print_if tb TCA_AIFO_BURST sizeof_u16
       (fun rta => Uint "burst" "burst %u " (rta_getattr_u32 rta))
     ++ print_if tb TCA_AIFO_BUCKETS_LOG sizeof_u32
       (fun rta =>
          let buckets_log := rta_getattr_u32 rta in
          if buckets_log <? 32
          then Uint "buckets" "buckets %u " (Z.shiftl 1 buckets_log)
          else Undefined "buckets" "buckets %u ")
     ++ print_if tb TCA_AIFO_HASH_MASK sizeof_u32
       (fun rta => Uint "hash_mask" "hash_mask %u " (rta_getattr_u32 rta))
     ++ print_if tb TCA_AIFO_FLOW_PLIMIT sizeof_u32
       (fun rta => Uint "flow_limit" "flow_limit %up " (rta_getattr_u32 rta))
     ++ print_if tb TCA_AIFO_SAMPLE_SIZE sizeof_u16
       (fun rta => Uint "samples" "samples %u " (rta_getattr_u16 rta))
     ++ print_if tb TCA_AIFO_SAMPLE_PERIOD sizeof_u16
       (fun rta => Uint "speriod" "speriod %u " (rta_getattr_u16 rta))
     ++ print_if tb TCA_AIFO_FLAGS sizeof_u32
       (fun rta => Uint "flags" "flags 0x%X " (rta_getattr_u32 rta)),
     err)
  end.

(** ** Printing the statistics: aifo_print_xstats *)

(** The format string of no_mark: a space, a line feed, two spaces and the
    directive. *)
Definition no_mark_fmt : string :=
  String " " (String "010" "  no_mark %u").

(** [(float) v] for an unsigned int [v]: the nearest number with a
    significand of 24 bits, a tie going to the even one (IEEE 754 binary32,
    default rounding); exact below 2^24. *)
Definition float_of_u32 (v : Z) : Z :=
  if v <? 2 ^ 24 then v
  else
    let cut := Z.log2 v - 23 in
    let q := Z.shiftr v cut in
    let r := v - Z.shiftl q cut in
    let half := Z.shiftl 1 (cut - 1) in
    if (half <? r) || ((r =? half) && Z.odd q)
    then Z.shiftl (q + 1) cut else Z.shiftl q cut.

(** print_uint takes an unsigned int, so the 64-bit flows_gc is cut to 32
    bits. The argument of print_float is the float of quant_avg_1k divided,
    as a double, by 1024.0: that division is exact, and the value is kept
    as the pair of the float (a whole number) and 1024. *)
Definition aifo_print_xstats (xstats : option (list Z)) : Z * list out :=
  match xstats with
  | None => (0, [])
  | Some xstats =>
    if RTA_PAYLOAD xstats <? sizeof_tc_aifo_xstats then (-1, [])
    else
      let st := RTA_DATA xstats in
      let backlog_peak := peek 4 (drop off_backlog_peak st) in
      let qlen_peak := peek 4 (drop off_qlen_peak st) in
      (0,
       [ Uint "flows" "  flows %u" (peek 4 (drop off_flows st));
         Uint "flows_gc" " gc %u" (u32 (peek 8 (drop off_flows_gc st)));
         Uint "alloc_errors" " alloc_errors %u"
           (peek 4 (drop off_alloc_errors st));
         Uint "no_mark" no_mark_fmt (peek 4 (drop off_no_mark st));
         Uint "drop_mark" " drop_mark %u" (peek 4 (drop off_drop_mark st));
         Float "quant_avg" " quant_avg %.3f"
           (float_of_u32 (peek 4 (drop off_quant_avg_1k st))) 1024 ]
       ++ (if negb (backlog_peak =? 0) || negb (qlen_peak =? 0)
           then [ Uint "backlog_peak" "  backlog_peak %ub" backlog_peak;
                  Uint "qlen_peak" " %up" qlen_peak ]
           else []))
  end.
End Printing.

(** ** Building the message: the addattr helpers

    The encoder runs in a state monad over the request and stderr. *)

(** Modelled from the spec: struct nlmsghdr (linux/netlink.h) is not under
    src/. The request is the caller-supplied output buffer of the spec:
    [nlmsg_buf] holds the bytes of that buffer from the address of the
    header on, and [nlmsg_len], the one header field the code uses, is kept
    beside them rather than in the first bytes. *)
Record nlmsghdr : Type := { nlmsg_len : Z; nlmsg_buf : list Z }.

Record env : Type := { msg : nlmsghdr; stderr : list diag }.

Definition M (A : Type) : Type := env -> A * env.

#[global] Instance M_ret : MRet M := fun A a e => (a, e).

#[global] Instance M_bind : MBind M :=
  fun A B k c e => let '(a, e') := c e in k a e'.

Definition get_msg : M nlmsghdr := fun e => (msg e, e).

Definition put_msg (n : nlmsghdr) : M unit :=
  fun e => (tt, {| msg := n; stderr := stderr e |}).

Definition fprintf_stderr (d : diag) : M unit :=
  fun e => (tt, {| msg := msg e; stderr := stderr e ++ [d] |}).

(** An [if (c) stmt;] whose statement is a call with an ignored result. *)
Definition when {A : Type} (c : bool) (stmt : M A) : M unit :=
  if c then (stmt ;; mret tt) else mret tt.

(** Modelled from the spec: NLMSG_TAIL of libnetlink.h, not under src/, as
    the offset of the tail from the header. *)
Definition NLMSG_TAIL (n : nlmsghdr) : Z := NLMSG_ALIGN (nlmsg_len n).

Section Addattr.
Context `{ByteOrder}.

(** Modelled from the spec: addattr_l of libnetlink is not under src/; it
    is the append of the spec (section 6), to which the spec leaves the
    capacity check. It refuses, with -1 and a message, an attribute that
    would take the aligned message past [maxlen] (an unsigned comparison),
    and otherwise writes rta_type, rta_len and the payload at the tail and
    grows nlmsg_len by the aligned attribute length; padding bytes are not
    written. *)
Definition addattr_l (maxlen type : Z) (data : list Z) : M Z :=
  n ← get_msg;
  let alen := Z.of_nat (length data) in
  let len := int (RTA_LENGTH alen) in
  if u32 maxlen <? u32 (NLMSG_ALIGN (nlmsg_len n) + RTA_ALIGN len) then
    fprintf_stderr (Exceeded maxlen);;
    mret (-1)
  else
    let rta := NLMSG_TAIL n in
    let buf := poke (rta + 2) (to_bytes 2 (u16 type)) (nlmsg_buf n) in
    let buf := poke rta (to_bytes 2 (u16 len)) buf in
    let buf := poke (rta + RTA_LENGTH 0) data buf in
    put_msg {| nlmsg_len := u32 (NLMSG_ALIGN (nlmsg_len n) + RTA_ALIGN len);
               nlmsg_buf := buf |};;
    mret 0.

(** Modelled from the spec: addattr32 and addattr16 of libnetlink, not
    under src/, append the object representation of their argument. *)
Definition addattr32 (maxlen type data : Z) : M Z :=
  addattr_l maxlen type (to_bytes 4 (u32 data)).

Definition addattr16 (maxlen type data : Z) : M Z :=
  addattr_l maxlen type (to_bytes 2 (u16 data)).

(** Modelled from the spec: addattr_nest of libnetlink, not under src/, is
    the begin_nest of the spec: it appends an attribute without payload and
    returns where the tail was, whether or not the append was refused. *)
Definition addattr_nest (maxlen type : Z) : M Z :=
  n ← get_msg;
  let nest := NLMSG_TAIL n in
  addattr_l maxlen type [];;
  mret nest.

(** Modelled from the spec: addattr_nest_end of libnetlink, not under
    src/, is the end_nest of the spec: it sets the length of the nest to
    the distance from the nest to the tail and returns nlmsg_len. *)
Definition addattr_nest_end (nest : Z) : M Z :=
  n ← get_msg;
  put_msg {| nlmsg_len := nlmsg_len n;
             nlmsg_buf := poke nest (to_bytes 2 (u16 (NLMSG_TAIL n - nest)))
                            (nlmsg_buf n) |};;
  mret (nlmsg_len n).
End Addattr.

(** ** Reading the option values: get_u32, get_u16, get_unsigned *)

(** The reading of a whole token as a number, strtoul with base 0, is a
    parameter of the development: [None] when the token is not a number. *)
Class Strtoul := strtoul : string -> option N.

Section GetInteger.
Context `{Strtoul}.

(** Modelled from the spec: get_u32, get_u16 and get_unsigned of utils.c
    are not under src/; by the spec they parse a token as an unsigned
    integer of the given width and fail closed on anything else. [None]
    is the return of -1, which leaves the variable as it was. *)
Definition get_bounded (max : Z) (arg : string) : option Z :=
  match strtoul arg with
  | Some res => if max <? Z.of_N res then None else Some (Z.of_N res)
  | None => None
  end.

Definition get_u32 : string -> option Z := get_bounded 0xFFFFFFFF.
Definition get_u16 : string -> option Z := get_bounded 0xFFFF.
Definition get_unsigned : string -> option Z := get_bounded 0xFFFFFFFF.
End GetInteger.

(** ** String comparison *)

Definition tolower (c : ascii) : ascii :=
  let n := N_of_ascii c in
  if ((65 <=? n) && (n <=? 90))%N then ascii_of_N (n + 32) else c.

Fixpoint lower (s : string) : string :=
  match s with
  | EmptyString => EmptyString
  | String c s' => String (tolower c) (lower s')
  end.

(** [strcmp a b == 0] and [strcasecmp a b == 0]. *)
Definition strcmp0 (a b : string) : bool := String.eqb a b.
Definition strcasecmp0 (a b : string) : bool := String.eqb (lower a) (lower b).

(** ** Parsing the options: aifo_parse_opt *)

(** The local variables of aifo_parse_opt. *)
Record opts : Type := {
  plimit : Z;
  burst : Z;
  buckets : Z;
  hash_mask : Z;
  flow_plimit : Z;
  sample_size : Z;
  sample_period : Z;
  flags : Z;
  flags_upd : bool
}.

Definition opts_init : opts :=
  {| plimit := 0xFFFFFFFF; burst := 0xFFFFFFFF; buckets := 0;
     hash_mask := 0x0; flow_plimit := 0xFFFFFFFF; sample_size := 0xFFFF;
     sample_period := 0xFFFF; flags := 0x0; flags_upd := false |}.

Definition set_plimit (v : Z) (o : opts) : opts :=
  {| plimit := v; burst := burst o; buckets := buckets o;
     hash_mask := hash_mask o; flow_plimit := flow_plimit o;
     sample_size := sample_size o; sample_period := sample_period o;
     flags := flags o; flags_upd := flags_upd o |}.

Definition set_burst (v : Z) (o : opts) : opts :=
  {| plimit := plimit o; burst := v; buckets := buckets o;
     hash_mask := hash_mask o; flow_plimit := flow_plimit o;
     sample_size := sample_size o; sample_period := sample_period o;
     flags := flags o; flags_upd := flags_upd o |}.

Definition set_buckets (v : Z) (o : opts) : opts :=
  {| plimit := plimit o; burst := burst o; buckets := v;
     hash_mask := hash_mask o; flow_plimit := flow_plimit o;
     sample_size := sample_size o; sample_period := sample_period o;
     flags := flags o; flags_upd := flags_upd o |}.

Definition set_hash_mask (v : Z) (o : opts) : opts :=
  {| plimit := plimit o; burst := burst o; buckets := buckets o;
     hash_mask := v; flow_plimit := flow_plimit o;
     sample_size := sample_size o; sample_period := sample_period o;
     flags := flags o; flags_upd := flags_upd o |}.

Definition set_flow_plimit (v : Z) (o : opts) : opts :=
  {| plimit := plimit o; burst := burst o; buckets := buckets o;
     hash_mask := hash_mask o; flow_plimit := v;
     sample_size := sample_size o; sample_period := sample_period o;
     flags := flags o; flags_upd := flags_upd o |}.

Definition set_sample_size (v : Z) (o : opts) : opts :=
  {| plimit := plimit o; burst := burst o; buckets := buckets o;
     hash_mask := hash_mask o; flow_plimit := flow_plimit o;
     sample_size := v; sample_period := sample_period o;
     flags := flags o; flags_upd := flags_upd o |}.

Definition set_sample_period (v : Z) (o : opts) : opts :=
  {| plimit := plimit o; burst := burst o; buckets := buckets o;
     hash_mask := hash_mask o; flow_plimit := flow_plimit o;
     sample_size := sample_size o; sample_period := v;
     flags := flags o; flags_upd := flags_upd o |}.

Definition set_flags (v : Z) (o : opts) : opts :=
  {| plimit := plimit o; burst := burst o; buckets := buckets o;
     hash_mask := hash_mask o; flow_plimit := flow_plimit o;
     sample_size := sample_size o; sample_period := sample_period o;
     flags := v; flags_upd := true |}.

(** How the token loop ends: all tokens read, or a return with a value and
    the messages written. *)
Inductive parsed : Type :=
  | Parsed (o : opts)
  | Failed (ret : Z) (err : list diag).

(** Modelled from the spec: NEXT_ARG is a macro of utils.h, not under src/.
    It steps to the token after an option name; by the spec (section 4.1)
    an option name with no value token left fails the call with
    MissingArgument, here a return of -1 with [Incomplete]. [k] is the
    code after the macro, run on the value and the tokens after it. *)
Definition NEXT_ARG (argv : list string)
    (k : string -> list string -> parsed) : parsed :=
  match argv with
  | [] => Failed (-1) [Incomplete]
  | val :: rest => k val rest
  end.

Section Parse.
Context `{ByteOrder} `{Strtoul}.

(** The [while (argc > 0)] loop (lines 94 to 158). [argv] holds the argc
    tokens left. *)
Fixpoint aifo_parse_args (id : string) (argv : list string) (o : opts)
    : parsed :=
  match argv with
  | [] => Parsed o
  | arg :: argv' =>
    if strcmp0 arg "limit" then
      NEXT_ARG argv' (fun val rest =>
      match get_u32 val with
      | None => Failed (-1) [Illegal "limit"]
      | Some v => aifo_parse_args id rest (set_plimit v o)
      end)
    else if strcmp0 arg "buckets" then
      NEXT_ARG argv' (fun val rest =>
      match get_unsigned val with
      | None => Failed (-1) [Illegal "buckets"]
      | Some v => aifo_parse_args id rest (set_buckets v o)
      end)
    else if strcmp0 arg "burst" then
      NEXT_ARG argv' (fun val rest =>
      match get_u32 val with
      | None => Failed (-1) [Illegal "burst"]
      | Some v => aifo_parse_args id rest (set_burst v o)
      end)
    else if strcmp0 arg "hash_mask" then
      NEXT_ARG argv' (fun val rest =>
      match get_u32 val with
      | None => Failed (-1) [Illegal "hash_mask"]
      | Some v => aifo_parse_args id rest (set_hash_mask v o)
      end)
    else if strcmp0 arg "flow_limit" then
      NEXT_ARG argv' (fun val rest =>
      match get_u32 val with
      | None => Failed (-1) [Illegal "flow_limit"]
      | Some v => aifo_parse_args id rest (set_flow_plimit v o)
      end)
    else if strcmp0 arg "samples" then
      NEXT_ARG argv' (fun val rest =>
      match get_u16 val with
      | None => Failed (-1) [Illegal "samples"]
      | Some v =>
        if AIFO_SAMPLE_SIZE_MAX <? v then Failed (-1) [TooBig "samples"]
        else aifo_parse_args id rest (set_sample_size v o)
      end)
    else if strcmp0 arg "speriod" then
      NEXT_ARG argv' (fun val rest =>
      match get_u16 val with
      | None => Failed (-1) [Illegal "speriod"]
      | Some v => aifo_parse_args id rest (set_sample_period v o)
      end)
    else if strcasecmp0 arg "flags" then
      NEXT_ARG argv' (fun val rest =>
      match get_unsigned val with
      | None => Failed (-1) [Illegal "flags"]
      | Some v => aifo_parse_args id rest (set_flags v o)
      end)
    else if strcmp0 arg "help" then
      Failed (-1) [Usage]
    else
      Failed (-1) [Unknown id arg; Usage]
  end.

(** From addattr_nest to the return (lines 160 to 186); the results of
    the addattr calls are not looked at. *)
Definition aifo_add_attrs (o : opts) : M Z :=
  tail ← addattr_nest 1024 TCA_OPTIONS;
  when (negb (plimit o =? 0xFFFFFFFF))
    (addattr32 1024 TCA_AIFO_PLIMIT (plimit o));;
  when (negb (burst o =? 0xFFFFFFFF))
    (addattr32 MAX_MSG TCA_AIFO_BURST (burst o));;
  when (negb (buckets o =? 0))
    (let hash_log := ilog2 (buckets o) in
     addattr32 1024 TCA_AIFO_BUCKETS_LOG hash_log);;
  when (negb (hash_mask o =? 0x0))
    (addattr32 1024 TCA_AIFO_HASH_MASK (hash_mask o));;
  when (negb (flow_plimit o =? 0xFFFFFFFF))
    (addattr32 1024 TCA_AIFO_FLOW_PLIMIT (flow_plimit o));;
  when (negb (sample_size o =? 0xFFFF))
    (addattr16 MAX_MSG TCA_AIFO_SAMPLE_SIZE (sample_size o));;
  when (negb (sample_period o =? 0xFFFF))
    (addattr16 MAX_MSG TCA_AIFO_SAMPLE_PERIOD (sample_period o));;
  when (flags_upd o)
    (addattr32 MAX_MSG TCA_AIFO_FLAGS (flags o));;
  addattr_nest_end tail;;
  mret 0.

(** The whole function: the return value, the request afterwards and
    what went to stderr. [id] is qu->id. *)
Definition aifo_parse_opt (id : string) (argv : list string) (n : nlmsghdr)
    : Z * nlmsghdr * list diag :=
  match aifo_parse_args id argv opts_init with
  | Failed r err => (r, n, err)
  | Parsed o =>
    let '(r, e) := aifo_add_attrs o {| msg := n; stderr := [] |} in
    (r, msg e, stderr e)
  end.
End Parse.

(** ** Concrete inputs used in examples *)

#[local] Instance little_endian : ByteOrder := false.

(** Decimal tokens only; enough to run the parser on examples. *)
Fixpoint decimal_digits (acc : N) (s : string) : option N :=
  match s with
  | EmptyString => Some acc
  | String c s' =>
    let d := N_of_ascii c in
    if ((48 <=? d) && (d <=? 57))%N
    then decimal_digits (acc * 10 + (d - 48))%N s'
    else None
  end.

#[local] Instance decimal : Strtoul :=
  fun s => match s with EmptyString => None | _ => decimal_digits 0 s end.

(** A zeroed request buffer of 2048 bytes with a message of [len] bytes. *)
Definition request (len : Z) : nlmsghdr :=
  {| nlmsg_len := len; nlmsg_buf := replicate 2048 0 |}.

(** The bytes at the tail of the message as it was before the call. *)
Definition appended (before after : nlmsghdr) : list Z :=
  drop (Z.to_nat (NLMSG_TAIL before)) (nlmsg_buf after).

(** ** The block on the wire

    What the proofs compare the code against: the bytes of an attribute,
    of a sequence of attributes, and the fields of the configuration record
    in the order of the tag enumeration. *)

Section Wire.
Context `{ByteOrder}.

(** Header and payload of one attribute. *)
Definition rtattr_bytes (type : Z) (data : list Z) : list Z :=
  to_bytes 2 (u16 (RTA_LENGTH (Z.of_nat (length data))))
  ++ to_bytes 2 (u16 type) ++ data.

(** A sequence of attributes, each given by its type, its payload and
    the bytes that pad it. *)
Fixpoint wire (attrs : list (Z * list Z * list Z)) : list Z :=
  match attrs with
  | [] => []
  | (type, data, pad) :: attrs' =>
    rtattr_bytes type data ++ pad ++ wire attrs'
  end.

(** The table parse_rtattr_flags builds from such a sequence followed by
    [rest], and the first attribute of a type in it. *)
Fixpoint tb_fill (tb : list (option (list Z)))
    (attrs : list (Z * list Z * list Z)) (rest : list Z)
    : list (option (list Z)) :=
  match attrs with
  | [] => tb
  | (type, _, _) :: attrs' =>
    tb_fill
      (if (type <=? TCA_AIFO_MAX)
          && negb (bool_decide (is_Some (tb_get tb type)))
       then <[Z.to_nat type := Some (wire attrs ++ rest)]> tb
       else tb)
      attrs' rest
  end.

Fixpoint find_attr (tag : Z) (attrs : list (Z * list Z * list Z))
    (rest : list Z) : option (list Z) :=
  match attrs with
  | [] => None
  | (type, _, _) :: attrs' =>
    if type =? tag then Some (wire attrs ++ rest)
    else find_attr tag attrs' rest
  end.
End Wire.

(** The payload of the first attribute of a type. *)
Fixpoint payload_of (tag : Z) (l : list (Z * list Z)) : option (list Z) :=
  match l with
  | [] => None
  | (type, data) :: l' => if type =? tag then Some data else payload_of tag l'
  end.

(** The tags in the order of the enumeration. *)
Definition tags : list Z :=
  [ TCA_AIFO_PLIMIT; TCA_AIFO_BURST; TCA_AIFO_BUCKETS_LOG;
    TCA_AIFO_HASH_MASK; TCA_AIFO_FLOW_PLIMIT; TCA_AIFO_SAMPLE_SIZE;
    TCA_AIFO_SAMPLE_PERIOD; TCA_AIFO_FLAGS ].

Section Fields.
Context `{ByteOrder}.

(** The payload of a tag when the record says the field was supplied:
    a value other than the one the variable starts with, or the flag for
    the flags. *)
Definition supplied (o : opts) (tag : Z) : option (list Z) :=
  if tag =? TCA_AIFO_PLIMIT then
    if plimit o =? 0xFFFFFFFF then None
    else Some (to_bytes 4 (u32 (plimit o)))
  else if tag =? TCA_AIFO_BURST then
    if burst o =? 0xFFFFFFFF then None
    else Some (to_bytes 4 (u32 (burst o)))
  else if tag =? TCA_AIFO_BUCKETS_LOG then
    if buckets o =? 0 then None
    else Some (to_bytes 4 (u32 (ilog2 (buckets o))))
  else if tag =? TCA_AIFO_HASH_MASK then
    if hash_mask o =? 0 then None
    else Some (to_bytes 4 (u32 (hash_mask o)))
  else if tag =? TCA_AIFO_FLOW_PLIMIT then
    if flow_plimit o =? 0xFFFFFFFF then None
    else Some (to_bytes 4 (u32 (flow_plimit o)))
  else if tag =? TCA_AIFO_SAMPLE_SIZE then
    if sample_size o =? 0xFFFF then None
    else Some (to_bytes 2 (u16 (sample_size o)))
  else if tag =? TCA_AIFO_SAMPLE_PERIOD then
    if sample_period o =? 0xFFFF then None
    else Some (to_bytes 2 (u16 (sample_period o)))
  else if tag =? TCA_AIFO_FLAGS then
    if negb (flags_upd o) then None
    else Some (to_bytes 4 (u32 (flags o)))
  else None.

(** The supplied fields, as (tag, payload), in tag order. *)
Definition fields (o : opts) : list (Z * list Z) :=
  omap (fun tag => pair tag <$> supplied o tag) tags.
End Fields.

(** What printing shows of a supplied field; for buckets, 1 << k as a
    number, k being at most 31 for a buckets value up to 2^31. *)
Definition shown (o : opts) (tag : Z) : list out :=
  if tag =? TCA_AIFO_PLIMIT then
    if plimit o =? 0xFFFFFFFF then []
    else [Uint "limit" "limit %up " (plimit o)]
  else if tag =? TCA_AIFO_BURST then
    if burst o =? 0xFFFFFFFF then []
    else [Uint "burst" "burst %u " (burst o)]
  else if tag =? TCA_AIFO_BUCKETS_LOG then
    if buckets o =? 0 then []
    else [Uint "buckets" "buckets %u " (Z.shiftl 1 (ilog2 (buckets o)))]
  else if tag =? TCA_AIFO_HASH_MASK then
    if hash_mask o =? 0 then []
    else [Uint "hash_mask" "hash_mask %u " (hash_mask o)]
  else if tag =? TCA_AIFO_FLOW_PLIMIT then
    if flow_plimit o =? 0xFFFFFFFF then []
    else [Uint "flow_limit" "flow_limit %up " (flow_plimit o)]
  else if tag =? TCA_AIFO_SAMPLE_SIZE then
    if sample_size o =? 0xFFFF then []
    else [Uint "samples" "samples %u " (sample_size o)]
  else if tag =? TCA_AIFO_SAMPLE_PERIOD then
    if sample_period o =? 0xFFFF then []
    else [Uint "speriod" "speriod %u " (sample_period o)]
  else if tag =? TCA_AIFO_FLAGS then
    if negb (flags_upd o) then []
    else [Uint "flags" "flags 0x%X " (flags o)]
  else [].

Definition printed (o : opts) : list out := concat (map (shown o) tags).

(** The values of the record fit the C types of the variables. *)
Definition opts_ok (o : opts) : Prop :=
  0 <= plimit o < 2 ^ 32 /\ 0 <= burst o < 2 ^ 32
  /\ 0 <= buckets o < 2 ^ 32 /\ 0 <= hash_mask o < 2 ^ 32
  /\ 0 <= flow_plimit o < 2 ^ 32 /\ 0 <= sample_size o < 2 ^ 16
  /\ 0 <= sample_period o < 2 ^ 16 /\ 0 <= flags o < 2 ^ 32.

(** An attribute whose type and length fit their 16-bit fields (the type
    below the NLA_F_NESTED bit) and whose padding completes it to a
    multiple of four bytes. *)
Definition attr_ok (a : Z * list Z * list Z) : Prop :=
  let '(type, data, pad) := a in
  0 <= type < 2 ^ 15
  /\ 4 + Z.of_nat (length data) < 2 ^ 16
  /\ 4 + Z.of_nat (length data) + Z.of_nat (length pad)
     = RTA_ALIGN (4 + Z.of_nat (length data)).

(** ** The appends of aifo_parse_opt as a list

    The eight conditional addattr calls, as (condition, bound, type,
    payload), and what running them leaves behind: the attributes written
    over the free bytes [post] of the buffer and the bytes still free. *)

Section Appends.
Context `{ByteOrder}.

Definition appends (o : opts) : list (bool * Z * Z * list Z) :=
  [ (negb (plimit o =? 0xFFFFFFFF), 1024, TCA_AIFO_PLIMIT,
     to_bytes 4 (u32 (plimit o)));
    (negb (burst o =? 0xFFFFFFFF), MAX_MSG, TCA_AIFO_BURST,
     to_bytes 4 (u32 (burst o)));
    (negb (buckets o =? 0), 1024, TCA_AIFO_BUCKETS_LOG,
     to_bytes 4 (u32 (ilog2 (buckets o))));
    (negb (hash_mask o =? 0x0), 1024, TCA_AIFO_HASH_MASK,
     to_bytes 4 (u32 (hash_mask o)));
    (negb (flow_plimit o =? 0xFFFFFFFF), 1024, TCA_AIFO_FLOW_PLIMIT,
     to_bytes 4 (u32 (flow_plimit o)));
    (negb (sample_size o =? 0xFFFF), MAX_MSG, TCA_AIFO_SAMPLE_SIZE,
     to_bytes 2 (u16 (sample_size o)));
    (negb (sample_period o =? 0xFFFF), MAX_MSG, TCA_AIFO_SAMPLE_PERIOD,
     to_bytes 2 (u16 (sample_period o)));
    (flags_upd o, MAX_MSG, TCA_AIFO_FLAGS, to_bytes 4 (u32 (flags o))) ].

Fixpoint add_all (steps : list (bool * Z * Z * list Z)) (k : M Z) : M Z :=
  match steps with
  | [] => k
  | (c, maxlen, type, data) :: steps' =>
    when c (addattr_l maxlen type data);; add_all steps' k
  end.

Definition space (data : list Z) : nat :=
  Z.to_nat (RTA_ALIGN (4 + Z.of_nat (length data))).

Fixpoint emit (steps : list (bool * Z * Z * list Z)) (post : list Z)
    : list (Z * list Z * list Z) * list Z :=
  match steps with
  | [] => ([], post)
  | (c, _, type, data) :: steps' =>
    if c then
      let pad :=
        take (space data - 4 - length data) (drop (4 + length data) post) in
      let '(attrs, post') := emit steps' (drop (space data) post) in
      ((type, data, pad) :: attrs, post')
    else emit steps' post
  end.

Fixpoint needed (steps : list (bool * Z * Z * list Z)) : nat :=
  match steps with
  | [] => 0
  | (c, _, _, data) :: steps' =>
    ((if c then space data else 0) + needed steps')%nat
  end.

(** The request while the nest is being filled: [pre] up to the nest,
    the nest header as first written, the attributes added so far, free
    bytes. *)
Definition building (pre : list Z) (attrs : list (Z * list Z * list Z))
    (post : list Z) (err : list diag) : env :=
  {| msg :=
       {| nlmsg_len := Z.of_nat (length pre) + 4
                       + Z.of_nat (length (wire attrs));
          nlmsg_buf := pre ++ rtattr_bytes TCA_OPTIONS [] ++ wire attrs
                       ++ post |};
     stderr := err |}.

Definition step_ok (s : bool * Z * Z * list Z) : Prop :=
  let '(_, maxlen, type, data) := s in
  1024 <= maxlen < 2 ^ 32 /\ 0 <= type < 2 ^ 15
  /\ (1 <= length data <= 4)%nat.
End Appends.

(** ** Vocabulary of the statements *)

(** Room for a nest of [k] eight-byte attributes at the tail of the
    message: within the bound of 1024 that the nest is added with, and
    within the buffer. *)
Definition room (n : nlmsghdr) (k : nat) : Prop :=
  NLMSG_TAIL n + 4 + 8 * Z.of_nat k <= 1024
  /\ NLMSG_TAIL n + 4 + 8 * Z.of_nat k <= Z.of_nat (length (nlmsg_buf n)).

(** The option names the loop knows. *)
Definition recognized (arg : string) : bool :=
  strcmp0 arg "limit" || strcmp0 arg "buckets" || strcmp0 arg "burst"
  || strcmp0 arg "hash_mask" || strcmp0 arg "flow_limit"
  || strcmp0 arg "samples" || strcmp0 arg "speriod"
  || strcasecmp0 arg "flags" || strcmp0 arg "help".

(** The tokens in option-name position of a sequence of name and value
    pairs, and whether one of them is the flags option. *)
Fixpoint option_names (argv : list string) : list string :=
  match argv with
  | name :: _ :: rest => name :: option_names rest
  | _ => []
  end.

Definition flags_given (argv : list string) : bool :=
  existsb (fun name => strcasecmp0 name "flags") (option_names argv).

(** The outer attribute header can be read: the buffer holds its four
    bytes and the length it declares covers them. *)
Definition nest_header_ok `{ByteOrder} (opt : list Z) : bool :=
  (sizeof_rtattr <=? Z.of_nat (length opt)) && (sizeof_rtattr <=? rta_len opt).

(** Modelled from the spec: NLMSG_HDRLEN of linux/netlink.h, not under
    src/: the length of struct nlmsghdr, which every message includes. *)
Definition NLMSG_HDRLEN : Z := 16.

(** A request as tc hands it to the function: the message holds at least
    its own header and is shorter than 2^31 bytes, and the buffer has the 68
    bytes of the largest nest, four of header and eight attributes of eight,
    after the tail of the message. *)
Definition well_formed_request (n : nlmsghdr) : Prop :=
  NLMSG_HDRLEN <= nlmsg_len n < 2 ^ 31
  /\ NLMSG_TAIL n + 68 <= Z.of_nat (length (nlmsg_buf n)).

(** The appends as far as the message length and stderr go: each one that
    is due is tried against its own bound, whatever became of those before
    it; one that is refused leaves the length and writes its message, one
    that is taken grows the aligned length by the aligned attribute. *)
Fixpoint attempts (steps : list (bool * Z * Z * list Z)) (len : Z)
    : Z * list diag :=
  match steps with
  | [] => (len, [])
  | (c, maxlen, _, data) :: steps' =>
    let len' := NLMSG_ALIGN len + RTA_ALIGN (4 + Z.of_nat (length data)) in
    if negb c then attempts steps' len
    else if maxlen <? len' then
      let '(last, err) := attempts steps' len in (last, Exceeded maxlen :: err)
    else attempts steps' len'
  end.

(** The statistics structure as a value, and its object representation:
    the members in the order of the declaration, each at its natural
    alignment, so that four bytes of padding follow flows. *)
Record tc_aifo_xstats : Type := {
  flows : Z;
  flows_gc : Z;
  alloc_errors : Z;
  no_mark : Z;
  drop_mark : Z;
  qlen_peak : Z;
  backlog_peak : Z;
  quant_avg_1k : Z
}.

Definition layout `{ByteOrder} (members : list (nat * Z)) : list Z :=
  concat (map (fun m => to_bytes m.1 m.2) members).

Definition xstats_members (st : tc_aifo_xstats) (pad : Z) : list (nat * Z) :=
  [ (4%nat, flows st); (4%nat, pad); (8%nat, flows_gc st);
    (4%nat, alloc_errors st); (4%nat, no_mark st); (4%nat, drop_mark st);
    (4%nat, qlen_peak st); (4%nat, backlog_peak st);
    (4%nat, quant_avg_1k st) ].

Definition xstats_bytes `{ByteOrder} (st : tc_aifo_xstats) (pad : Z)
    : list Z :=
  layout (xstats_members st pad).

(** The members fit their types. *)
Definition xstats_ok (st : tc_aifo_xstats) : Prop :=
  0 <= flows st < 2 ^ 32 /\ 0 <= flows_gc st < 2 ^ 64
  /\ 0 <= alloc_errors st < 2 ^ 32 /\ 0 <= no_mark st < 2 ^ 32
  /\ 0 <= drop_mark st < 2 ^ 32 /\ 0 <= qlen_peak st < 2 ^ 32
  /\ 0 <= backlog_peak st < 2 ^ 32 /\ 0 <= quant_avg_1k st < 2 ^ 32.

(** What printing shows of the structure. *)
Definition xstats_shown (st : tc_aifo_xstats) : list out :=
  [ Uint "flows" "  flows %u" (flows st);
    Uint "flows_gc" " gc %u" (u32 (flows_gc st));
    Uint "alloc_errors" " alloc_errors %u" (alloc_errors st);
    Uint "no_mark" no_mark_fmt (no_mark st);
    Uint "drop_mark" " drop_mark %u" (drop_mark st);
    Float "quant_avg" " quant_avg %.3f" (float_of_u32 (quant_avg_1k st)) 1024 ]
  ++ (if (backlog_peak st =? 0) && (qlen_peak st =? 0) then []
      else [ Uint "backlog_peak" "  backlog_peak %ub" (backlog_peak st);
             Uint "qlen_peak" " %up" (qlen_peak st) ]).

(** The keys of the statistics, in the order printed. *)
Definition xstats_keys (peaks : bool) : list string :=
  [ "flows"; "flows_gc"; "alloc_errors"; "no_mark"; "drop_mark";
    "quant_avg" ]
  ++ (if peaks then [ "backlog_peak"; "qlen_peak" ] else []).

(** The tokens without the options picked by [is_name] and their values. *)
Fixpoint without (is_name : string -> bool) (argv : list string)
    : list string :=
  match argv with
  | name :: val :: rest =>
    if is_name name then without is_name rest
    else name :: val :: without is_name rest
  | _ => argv
  end.

(** ** Vocabulary of the further properties *)

(** The value a variable ends with when only the options picked by
    [is_name] are looked at: the value read from the last of them, or
    [init] when there is none. *)
Fixpoint last_value (is_name : string -> bool) (get : string -> option Z)
    (argv : list string) (init : Z) : Z :=
  match argv with
  | name :: val :: rest =>
    last_value is_name get rest
      (if is_name name then
         match get val with Some v => v | None => init end
       else init)
  | _ => init
  end.

(** Whether an option picked by [is_name] is among the tokens. *)
Definition given (is_name : string -> bool) (argv : list string) : bool :=
  existsb is_name (option_names argv).

(** Two option names that select different variables: different strings,
    not both spellings of flags. *)
Definition different_options (name1 name2 : string) : Prop :=
  name1 <> name2
  /\ (strcasecmp0 name1 "flags" && strcasecmp0 name2 "flags") = false.

(** The key of a printed item, and the keys in the order of the code. *)
Definition key (item : out) : string :=
  match item with
  | Uint k _ _ => k
  | Float k _ _ _ => k
  | Undefined k _ => k
  end.

Definition print_keys : list string :=
  [ "limit"; "burst"; "buckets"; "hash_mask"; "flow_limit"; "samples";
    "speriod"; "flags" ].

(** The bytes of the payload that the printer reads for a tag, and what it
    prints from a payload that holds them. *)
Definition width (tag : Z) : nat :=
  if (tag =? TCA_AIFO_SAMPLE_SIZE) || (tag =? TCA_AIFO_SAMPLE_PERIOD)
  then 2%nat else 4%nat.

Definition render `{ByteOrder} (tag : Z) (data : list Z) : list out :=
  let v := of_bytes (take (width tag) data) in
  if tag =? TCA_AIFO_PLIMIT then [Uint "limit" "limit %up " v]
  else if tag =? TCA_AIFO_BURST then [Uint "burst" "burst %u " v]
  else if tag =? TCA_AIFO_BUCKETS_LOG then
    [Uint "buckets" "buckets %u " (Z.shiftl 1 v)]
  else if tag =? TCA_AIFO_HASH_MASK then [Uint "hash_mask" "hash_mask %u " v]
  else if tag =? TCA_AIFO_FLOW_PLIMIT then
    [Uint "flow_limit" "flow_limit %up " v]
  else if tag =? TCA_AIFO_SAMPLE_SIZE then [Uint "samples" "samples %u " v]
  else if tag =? TCA_AIFO_SAMPLE_PERIOD then [Uint "speriod" "speriod %u " v]
  else if tag =? TCA_AIFO_FLAGS then [Uint "flags" "flags 0x%X " v]
  else [].

(** What a list of attributes, given as (type, payload), decodes to: for
    each tag in the order of the code, the first attribute of that type, if
    its payload holds the bytes read. *)
Definition decoded `{ByteOrder} (l : list (Z * list Z)) : list out :=
  concat
    (map (fun tag =>
            match payload_of tag l with
            | Some data =>
              if (width tag <=? length data)%nat then render tag data else []
            | None => []
            end)
         tags).

(** The first BURST attribute, if any, has a payload of fewer than two bytes
    or of at least four. *)
Definition burst_readable (l : list (Z * list Z)) : Prop :=
  match payload_of TCA_AIFO_BURST l with
  | Some data => (length data < 2 \/ 4 <= length data)%nat
  | None => True
  end.

(** The first BUCKETS_LOG attribute, if any that is read, holds a shift
    count that 1U << takes: a value below 32. *)
Definition shift_defined `{ByteOrder} (l : list (Z * list Z)) : Prop :=
  match payload_of TCA_AIFO_BUCKETS_LOG l with
  | Some data => (4 <= length data)%nat -> of_bytes (take 4 data) < 32
  | None => True
  end.

(** The option names that take a value, each with the function that reads
    the value, in the order of the branches of the token loop. *)
Definition readers `{Strtoul} : list (string * (string -> option Z)) :=
  [ ("limit", get_u32); ("buckets", get_unsigned); ("burst", get_u32);
    ("hash_mask", get_u32); ("flow_limit", get_u32); ("samples", get_u16);
    ("speriod", get_u16); ("flags", get_unsigned) ].

(** The names compared with strcmp. *)
Definition exact_names : list string :=
  [ "limit"; "buckets"; "burst"; "hash_mask"; "flow_limit"; "samples";
    "speriod"; "help" ].


(** * Properties *)

(** ** Integer and alignment facts *)

Ltac zdiv := Z.to_euclidean_division_equations; lia.

Lemma u16_small x : 0 <= x < 2 ^ 16 -> u16 x = x.
Proof. intros Hx. unfold u16. apply Z.mod_small. exact Hx. Qed.

Lemma u32_small x : 0 <= x < 2 ^ 32 -> u32 x = x.
Proof. intros Hx. unfold u32. apply Z.mod_small. exact Hx. Qed.

Lemma size_t_small x : 0 <= x < 2 ^ 64 -> size_t x = x.
Proof. intros Hx. unfold size_t. apply Z.mod_small. exact Hx. Qed.

Lemma int_small x : - 2 ^ 31 <= x < 2 ^ 31 -> int x = x.
Proof. intros Hx. unfold int. rewrite Z.mod_small; lia. Qed.

Lemma align4_land x : Z.land x (Z.lnot 3) = 4 * (x / 4).
Proof.
  change 3 with (Z.ones 2).
  rewrite <- Z.ldiff_land, Z.ldiff_ones_r by lia.
  rewrite Z.shiftr_div_pow2, Z.shiftl_mul_pow2 by lia.
  change (2 ^ 2) with 4. lia.
Qed.

Lemma RTA_ALIGN_spec x :
  0 <= x < 2 ^ 32 - 3 -> RTA_ALIGN x = 4 * ((x + 3) / 4).
Proof.
  intros Hx. unfold RTA_ALIGN, RTA_ALIGNTO.
  change (4 - 1) with 3. replace (x + 4 - 1) with (x + 3) by lia.
  rewrite align4_land. apply u32_small.
  Z.to_euclidean_division_equations; lia.
Qed.

Lemma NLMSG_ALIGN_spec x :
  0 <= x < 2 ^ 32 - 3 -> NLMSG_ALIGN x = 4 * ((x + 3) / 4).
Proof. exact (RTA_ALIGN_spec x). Qed.

Lemma NLMSG_ALIGN_aligned x :
  0 <= x < 2 ^ 32 - 3 -> x mod 4 = 0 -> NLMSG_ALIGN x = x.
Proof.
  intros Hx Hm. rewrite NLMSG_ALIGN_spec by exact Hx.
  Z.to_euclidean_division_equations; lia.
Qed.

Lemma NLMSG_ALIGN_mod4 x : NLMSG_ALIGN x mod 4 = 0.
Proof.
  unfold NLMSG_ALIGN, NLMSG_ALIGNTO, u32. change (4 - 1) with 3.
  rewrite align4_land. change (2 ^ 32) with (4 * 2 ^ 30).
  rewrite Z.mul_mod_distr_l by lia. rewrite Z.mul_comm. apply Z.mod_mul. lia.
Qed.

Lemma RTA_LENGTH_spec len : RTA_LENGTH len = 4 + len.
Proof. reflexivity. Qed.

(** ** ilog2 *)

Lemma ilog2_loop_spec fuel : forall val res,
  0 <= val < 2 ^ Z.of_nat fuel -> 0 <= res -> res + Z.of_nat fuel < 2 ^ 32 ->
  ilog2_loop fuel val res
  = res + (if val =? 0 then 0 else Z.log2 val + 1).
Proof.
  induction fuel as [|fuel IH]; intros val res Hval Hres Hfuel.
  - simpl in *. assert (val = 0) as -> by lia. simpl. lia.
  - cbn [ilog2_loop]. destruct (Z.eqb_spec val 0) as [->|Hnz]; [lia|].
    rewrite Nat2Z.inj_succ, Z.pow_succ_r in Hval by lia.
    rewrite u32_small by lia.
    rewrite IH; [| rewrite Z.shiftr_div_pow2 by lia; change (2 ^ 1) with 2;
                    zdiv | lia | lia].
    destruct (Z.eqb_spec (Z.shiftr val 1) 0) as [Hz|Hz].
    + rewrite Z.shiftr_div_pow2 in Hz by lia. change (2 ^ 1) with 2 in Hz.
      assert (val = 1) as -> by zdiv. change (Z.log2 1) with 0. lia.
    + rewrite Z.shiftr_div_pow2 in Hz by lia. change (2 ^ 1) with 2 in Hz.
      assert (2 <= val) by zdiv.
      rewrite Z.log2_shiftr by lia.
      assert (1 <= Z.log2 val) by (apply (Z.log2_le_pow2 val 1); lia).
      lia.
Qed.

Lemma ilog2_spec v :
  1 <= v <= 2 ^ 32 ->
  ilog2 v = if v =? 1 then 0 else Z.log2 (v - 1) + 1.
Proof.
  intros Hv. unfold ilog2. rewrite u32_small by lia.
  rewrite ilog2_loop_spec by (simpl; lia).
  destruct (Z.eqb_spec (v - 1) 0), (Z.eqb_spec v 1); lia.
Qed.

(** More than 32 rounds change nothing: the bound of the loop is exact. *)
Lemma ilog2_loop_fuel fuel v :
  0 <= v < 2 ^ 32 -> (32 <= fuel)%nat -> Z.of_nat fuel < 2 ^ 32 ->
  ilog2_loop fuel (u32 (v - 1)) 0 = ilog2 v.
Proof.
  intros Hv Hfuel Hbound. unfold ilog2.
  assert (0 <= u32 (v - 1) < 2 ^ 32) as Hu by (apply Z.mod_pos_bound; lia).
  assert (2 ^ 32 <= 2 ^ Z.of_nat fuel) by (apply Z.pow_le_mono_r; lia).
  rewrite (ilog2_loop_spec fuel) by lia.
  rewrite (ilog2_loop_spec 32) by (change (Z.of_nat 32) with 32; lia).
  reflexivity.
Qed.

Lemma ilog2_smallest v :
  1 <= v <= 2 ^ 31 ->
  0 <= ilog2 v <= 31 /\ v <= 2 ^ ilog2 v
  /\ forall j, 0 <= j -> v <= 2 ^ j -> ilog2 v <= j.
Proof.
  intros Hv. rewrite ilog2_spec by lia.
  destruct (Z.eqb_spec v 1) as [->|Hne].
  - change (2 ^ 0) with 1. repeat split; try lia.
  - assert (0 < v - 1) as Hpos by lia.
    pose proof (Z.log2_spec (v - 1) Hpos) as [Hlo Hhi].
    pose proof (Z.log2_nonneg (v - 1)) as Hnn.
    assert (Z.log2 (v - 1) < 31) as Hlt by (apply Z.log2_lt_pow2; lia).
    replace (Z.succ (Z.log2 (v - 1))) with (Z.log2 (v - 1) + 1) in Hhi by lia.
    repeat split; try lia.
    intros j Hj Hle.
    destruct (Z_lt_le_dec j (Z.log2 (v - 1) + 1)) as [Hsmall|]; [|lia].
    assert (2 ^ j <= 2 ^ Z.log2 (v - 1)) by (apply Z.pow_le_mono_r; lia).
    lia.
Qed.

Example ilog2_examples :
  map ilog2 [1; 2; 3; 4; 5; 1000; 1024; 1025] = [0; 1; 2; 2; 3; 10; 10; 11].
Proof. reflexivity. Qed.

(** ** The conversion to float *)

Lemma float_of_u32_exact v : v < 2 ^ 24 -> float_of_u32 v = v.
Proof.
  intros Hv. unfold float_of_u32.
  rewrite (proj2 (Z.ltb_lt _ _)) by exact Hv. reflexivity.
Qed.

Example float_of_u32_examples :
  float_of_u32 1536 = 1536 /\ float_of_u32 (2 ^ 24 + 1) = 2 ^ 24
  /\ float_of_u32 (2 ^ 24 + 3) = 2 ^ 24 + 4
  /\ float_of_u32 (2 ^ 32 - 1) = 2 ^ 32.
Proof. repeat split. Qed.

Example no_mark_fmt_line_feed :
  String.length no_mark_fmt = 14%nat
  /\ String.get 1 no_mark_fmt = Some (ascii_of_nat 10).
Proof. split; reflexivity. Qed.

(** ** Bytes and host byte order *)

Lemma length_le_bytes n : forall v, length (le_bytes n v) = n.
Proof. induction n as [|n IH]; intros v; simpl; [|rewrite IH]; reflexivity. Qed.

Lemma le_value_le_bytes n : forall v,
  le_value (le_bytes n v) = v mod 2 ^ (8 * Z.of_nat n).
Proof.
  induction n as [|n IH]; intros v.
  - simpl. rewrite Z.mod_1_r. reflexivity.
  - cbn [le_bytes le_value]. rewrite IH.
    replace (8 * Z.of_nat (S n)) with (8 + 8 * Z.of_nat n) by lia.
    rewrite Z.pow_add_r by lia. change (2 ^ 8) with 256.
    rewrite Z.rem_mul_r by lia. reflexivity.
Qed.

Section BytesFacts.
Context `{ByteOrder}.

Lemma length_to_bytes n v : length (to_bytes n v) = n.
Proof.
  unfold to_bytes. destruct big_endian;
    rewrite ?length_reverse; apply length_le_bytes.
Qed.

Lemma of_to_bytes n v : of_bytes (to_bytes n v) = v mod 2 ^ (8 * Z.of_nat n).
Proof.
  unfold of_bytes, to_bytes. destruct big_endian;
    rewrite ?reverse_involutive; apply le_value_le_bytes.
Qed.

Lemma peek_to_bytes n v rest :
  peek n (to_bytes n v ++ rest) = v mod 2 ^ (8 * Z.of_nat n).
Proof.
  unfold peek. rewrite take_app_length' by (symmetry; apply length_to_bytes).
  apply of_to_bytes.
Qed.

Lemma peek_u16 v rest : 0 <= v < 2 ^ 16 -> peek 2 (to_bytes 2 v ++ rest) = v.
Proof. intros Hv. rewrite peek_to_bytes. apply Z.mod_small. exact Hv. Qed.

Lemma peek_u32 v rest : 0 <= v < 2 ^ 32 -> peek 4 (to_bytes 4 v ++ rest) = v.
Proof. intros Hv. rewrite peek_to_bytes. apply Z.mod_small. exact Hv. Qed.

(** *** Reading back an attribute *)

Lemma length_rtattr_bytes type data :
  length (rtattr_bytes type data) = (4 + length data)%nat.
Proof.
  unfold rtattr_bytes. rewrite !length_app, !length_to_bytes. lia.
Qed.

Section Attribute.
Variables (type : Z) (data more : list Z).
Hypothesis Htype : 0 <= type < 2 ^ 16.
Hypothesis Hlen : 4 + Z.of_nat (length data) < 2 ^ 16.

Lemma rta_len_rtattr_bytes :
  rta_len (rtattr_bytes type data ++ more) = 4 + Z.of_nat (length data).
Proof.
  unfold rta_len, rtattr_bytes. rewrite <- !app_assoc.
  change (RTA_LENGTH ?x) with (4 + x).
  rewrite u16_small by lia. apply peek_u16. lia.
Qed.

Lemma rta_type_rtattr_bytes :
  rta_type (rtattr_bytes type data ++ more) = type.
Proof.
  unfold rta_type, rtattr_bytes. rewrite <- !app_assoc.
  rewrite drop_app_length' by (symmetry; apply length_to_bytes).
  rewrite u16_small by lia. apply peek_u16. lia.
Qed.

Lemma RTA_DATA_rtattr_bytes :
  RTA_DATA (rtattr_bytes type data ++ more) = data ++ more.
Proof.
  unfold RTA_DATA, rtattr_bytes. rewrite <- !app_assoc.
  rewrite (app_assoc (to_bytes 2 _) (to_bytes 2 _)).
  apply drop_app_length'. rewrite length_app, !length_to_bytes.
  reflexivity.
Qed.

Lemma RTA_PAYLOAD_rtattr_bytes :
  RTA_PAYLOAD (rtattr_bytes type data ++ more) = Z.of_nat (length data).
Proof.
  unfold RTA_PAYLOAD. rewrite rta_len_rtattr_bytes.
  change (RTA_LENGTH 0) with 4. rewrite size_t_small; lia.
Qed.
End Attribute.
End BytesFacts.

(** ** Walking a sequence of attributes *)

Lemma clear_nested_flag type :
  0 <= type < 2 ^ 15 -> u16 (Z.land type (Z.lnot NLA_F_NESTED)) = type.
Proof.
  intros Ht. rewrite <- Z.ldiff_land.
  assert (Z.ldiff type NLA_F_NESTED = type) as ->.
  { apply Z.bits_inj'. intros n Hn. rewrite Z.ldiff_spec.
    change NLA_F_NESTED with (2 ^ 15).
    destruct (Z.eq_dec n 15) as [->|Hne].
    - destruct (Z.eq_dec type 0) as [->|Hnz]; [reflexivity|].
      rewrite (Z.bits_above_log2 type 15); [reflexivity|lia|].
      apply Z.log2_lt_pow2; lia.
    - rewrite Z.pow2_bits_false by lia. apply andb_true_r. }
  apply u16_small. lia.
Qed.

Lemma RTA_ALIGN_bounds x :
  4 <= x < 2 ^ 31 -> x <= RTA_ALIGN x <= x + 3.
Proof. intros Hx. rewrite RTA_ALIGN_spec by lia. zdiv. Qed.

Section ParseFacts.
Context `{ByteOrder}.

(** [Z.to_nat len] rounds are all the walk can use: more change nothing. *)
Lemma parse_rtattr_loop_fuel fuel : forall fuel' max flags tb rta len,
  - 2 ^ 31 <= len < 2 ^ 31 ->
  (Z.to_nat len <= fuel)%nat -> (Z.to_nat len <= fuel')%nat ->
  parse_rtattr_loop fuel max flags tb rta len
  = parse_rtattr_loop fuel' max flags tb rta len.
Proof.
  induction fuel as [|fuel IH]; intros fuel' max flags tb rta len Hint Hf Hf'.
  - destruct fuel' as [|fuel']; [reflexivity|]. cbn [parse_rtattr_loop].
    unfold RTA_OK, sizeof_rtattr.
    rewrite (proj2 (Z.leb_gt 4 len)) by lia. reflexivity.
  - destruct fuel' as [|fuel']; cbn [parse_rtattr_loop]; unfold RTA_OK,
      sizeof_rtattr.
    + rewrite (proj2 (Z.leb_gt 4 len)) by lia. reflexivity.
    + destruct (Z.leb_spec 4 len) as [Hlen|]; [|reflexivity].
      destruct (Z.leb_spec 4 (rta_len rta)) as [Hrta|]; [|reflexivity].
      destruct (Z.leb_spec (rta_len rta) len) as [Hle|]; [|reflexivity].
      cbn [andb].
      assert (4 <= rta_len rta < 2 ^ 31) as Hbounds by lia.
      pose proof (RTA_ALIGN_bounds (rta_len rta) Hbounds) as Halign.
      rewrite (int_small (len - _)) by lia.
      apply IH; [lia|lia|lia].
Qed.

Lemma wire_app attrs1 attrs2 :
  wire (attrs1 ++ attrs2) = wire attrs1 ++ wire attrs2.
Proof.
  induction attrs1 as [|[[type data] pad] attrs1 IH]; simpl; [reflexivity|].
  rewrite IH, <- !app_assoc. reflexivity.
Qed.

Lemma length_wire_cons type data pad attrs :
  attr_ok (type, data, pad) ->
  Z.of_nat (length (wire ((type, data, pad) :: attrs)))
  = RTA_ALIGN (4 + Z.of_nat (length data)) + Z.of_nat (length (wire attrs)).
Proof.
  intros (_ & _ & <-). cbn [wire].
  rewrite !length_app, length_rtattr_bytes. lia.
Qed.

Lemma parse_rtattr_loop_wire attrs : forall fuel tb rest,
  (length attrs <= fuel)%nat -> Forall attr_ok attrs ->
  Z.of_nat (length (wire attrs)) < 2 ^ 31 ->
  parse_rtattr_loop fuel TCA_AIFO_MAX NLA_F_NESTED tb (wire attrs ++ rest)
    (Z.of_nat (length (wire attrs)))
  = (tb_fill tb attrs rest, rest, 0).
Proof.
  induction attrs as [|[[type data] pad] attrs IH];
    intros fuel tb rest Hfuel Hok Hsize.
  - destruct fuel; reflexivity.
  - destruct fuel as [|fuel]; [simpl in Hfuel; lia|].
    apply Forall_cons in Hok as [Ha Hok].
    pose proof Ha as (Htype & Hlen & Hpad).
    pose proof (length_wire_cons type data pad attrs Ha) as Hsz.
    cbn [parse_rtattr_loop tb_fill].
    assert (wire ((type, data, pad) :: attrs) ++ rest
            = rtattr_bytes type data ++ (pad ++ wire attrs ++ rest)) as Hptr
      by (cbn [wire]; rewrite <- !app_assoc; reflexivity).
    assert (rta_len (wire ((type, data, pad) :: attrs) ++ rest)
            = 4 + Z.of_nat (length data)) as Hrl
      by (rewrite Hptr; apply rta_len_rtattr_bytes; lia).
    assert (rta_type (wire ((type, data, pad) :: attrs) ++ rest) = type)
      as Hrt by (rewrite Hptr; apply rta_type_rtattr_bytes; lia).
    unfold RTA_OK. rewrite !Hrl, !Hrt, !clear_nested_flag by lia.
    replace (sizeof_rtattr <=? Z.of_nat _) with true
      by (symmetry; apply Z.leb_le; unfold sizeof_rtattr; lia).
    replace (sizeof_rtattr <=? _) with true
      by (symmetry; apply Z.leb_le; unfold sizeof_rtattr; lia).
    replace (4 + Z.of_nat (length data) <=? _) with true
      by (symmetry; apply Z.leb_le; lia).
    cbn [andb].
    rewrite <- Hpad.
    replace (drop _ (wire _ ++ rest)) with (wire attrs ++ rest).
    2:{ rewrite Hptr, !app_assoc, <- (app_assoc _ (wire attrs)).
        symmetry. apply drop_app_length'.
        rewrite !length_app, length_rtattr_bytes. lia. }
    replace (int _) with (Z.of_nat (length (wire attrs)))
      by (rewrite int_small; lia).
    apply IH; [simpl in Hfuel; lia|exact Hok|lia].
Qed.

Lemma tb_get_insert tb type p tag :
  0 <= type -> 0 <= tag -> (Z.to_nat type < length tb)%nat ->
  tb_get (<[Z.to_nat type := Some p]> tb) tag
  = if type =? tag then Some p else tb_get tb tag.
Proof.
  intros Htype Htag Hin. unfold tb_get.
  destruct (Z.eqb_spec type tag) as [->|Hne].
  - rewrite list_lookup_insert_eq by exact Hin. reflexivity.
  - rewrite list_lookup_insert_ne by lia. reflexivity.
Qed.

Lemma tb_get_tb_fill attrs : forall tb rest tag,
  0 <= tag <= TCA_AIFO_MAX -> length tb = Z.to_nat (TCA_AIFO_MAX + 1) ->
  Forall attr_ok attrs ->
  tb_get (tb_fill tb attrs rest) tag
  = match tb_get tb tag with
    | Some p => Some p
    | None => find_attr tag attrs rest
    end.
Proof.
  induction attrs as [|[[type data] pad] attrs IH];
    intros tb rest tag Htag Hlen Hok.
  - simpl. destruct (tb_get tb tag); reflexivity.
  - apply Forall_cons in Hok as [(Htype & _) Hok].
    cbn [tb_fill find_attr].
    destruct (Z.leb_spec type TCA_AIFO_MAX) as [Hle|Hgt]; cbn [andb].
    + destruct (tb_get tb type) as [q|] eqn:Hq.
      * rewrite bool_decide_eq_true_2 by eauto. cbn [negb].
        rewrite IH by assumption.
        destruct (Z.eqb_spec type tag) as [->|Hne]; [rewrite Hq|];
          reflexivity.
      * rewrite bool_decide_eq_false_2 by apply is_Some_None.
        cbn [negb]. rewrite IH; [|lia|rewrite length_insert; exact Hlen|
                                  exact Hok].
        rewrite tb_get_insert
          by (try lia; rewrite Hlen; unfold TCA_AIFO_MAX in *; lia).
        destruct (Z.eqb_spec type tag) as [->|Hne]; [rewrite Hq|];
          reflexivity.
    + rewrite IH by assumption.
      destruct (Z.eqb_spec type tag) as [->|Hne]; [lia|reflexivity].
Qed.

Lemma find_attr_spec attrs : forall rest tag,
  match find_attr tag attrs rest with
  | Some p =>
    exists data more,
      p = rtattr_bytes tag data ++ more
      /\ payload_of tag (map fst attrs) = Some data
  | None => payload_of tag (map fst attrs) = None
  end.
Proof.
  induction attrs as [|[[type data] pad] attrs IH]; intros rest tag.
  - reflexivity.
  - cbn [find_attr map fst payload_of].
    destruct (Z.eqb_spec type tag) as [->|Hne]; [|apply IH].
    exists data, (pad ++ wire attrs ++ rest). split; [|reflexivity].
    cbn [wire]. rewrite <- !app_assoc. reflexivity.
Qed.

Lemma omap_cons {A B} (g : A -> option B) x l :
  omap g (x :: l)
  = match g x with Some y => y :: omap g l | None => omap g l end.
Proof. reflexivity. Qed.

Lemma payload_of_omap (f : Z -> option (list Z)) l tag :
  NoDup l ->
  payload_of tag (omap (fun k => pair k <$> f k) l)
  = if decide (tag ∈ l) then f tag else None.
Proof.
  induction 1 as [|k l Hk Hl IH].
  - reflexivity.
  - rewrite omap_cons. destruct (f k) as [d|] eqn:Hf;
      cbn [fmap option_fmap option_map].
    + cbn [payload_of]. rewrite IH.
      destruct (Z.eqb_spec k tag) as [->|Hne].
      * rewrite decide_True by apply list_elem_of_here. symmetry. exact Hf.
      * destruct (decide (tag ∈ l)) as [Hin|Hnin].
        -- rewrite decide_True by (apply list_elem_of_further; exact Hin).
           reflexivity.
        -- rewrite decide_False; [reflexivity|].
           intros [?|?]%elem_of_cons; [congruence|contradiction].
    + rewrite IH. destruct (decide (tag = k)) as [->|Hne].
      * rewrite decide_False by exact Hk.
        rewrite decide_True by apply list_elem_of_here. symmetry. exact Hf.
      * destruct (decide (tag ∈ l)) as [Hin|Hnin].
        -- rewrite decide_True by (apply list_elem_of_further; exact Hin).
           reflexivity.
        -- rewrite decide_False; [reflexivity|].
           intros [?|?]%elem_of_cons; [congruence|contradiction].
Qed.

Lemma NoDup_tags : NoDup tags.
Proof. compute_done. Qed.

Lemma payload_of_fields o tag :
  tag ∈ tags -> payload_of tag (fields o) = supplied o tag.
Proof.
  intros Hin. unfold fields. rewrite payload_of_omap by apply NoDup_tags.
  rewrite decide_True by exact Hin. reflexivity.
Qed.
End ParseFacts.

(** ** Printing a block of well-formed attributes *)

Section PrintFacts.
Context `{ByteOrder}.

Lemma length_attrs_wire attrs :
  (length attrs <= length (wire attrs))%nat.
Proof.
  induction attrs as [|[[type data] pad] attrs IH]; simpl; [lia|].
  rewrite !length_app, length_rtattr_bytes. lia.
Qed.

Lemma tb_get_replicate n tag :
  tb_get (replicate n None) tag = None.
Proof.
  unfold tb_get. destruct (replicate n None !! Z.to_nat tag) eqn:E;
    [|reflexivity].
  apply lookup_replicate in E as [-> _]. reflexivity.
Qed.

Lemma parse_rtattr_nested_wire attrs post :
  Forall attr_ok attrs -> 4 + Z.of_nat (length (wire attrs)) < 2 ^ 16 ->
  parse_rtattr_nested TCA_AIFO_MAX
    (rtattr_bytes TCA_OPTIONS (wire attrs) ++ post)
  = (0, tb_fill (replicate (Z.to_nat (TCA_AIFO_MAX + 1)) None) attrs post,
     []).
Proof.
  intros Hok Hsize. unfold parse_rtattr_nested, parse_rtattr_flags.
  rewrite RTA_DATA_rtattr_bytes, RTA_PAYLOAD_rtattr_bytes by exact Hsize.
  rewrite int_small by lia.
  rewrite parse_rtattr_loop_wire;
    [reflexivity|rewrite Nat2Z.id; apply length_attrs_wire|exact Hok|lia].
Qed.

Section OneTag.
Variables (o : opts) (attrs : list (Z * list Z * list Z)).
Variables (rest : list Z) (tag size : Z) (absent : bool) (v : Z).
Variable pr : Z -> out.
Hypothesis Hfields : map fst attrs = fields o.
Hypothesis Hok : Forall attr_ok attrs.
Hypothesis Htag : tag ∈ tags.

Local Abbreviation tb :=
  (tb_fill (replicate (Z.to_nat (TCA_AIFO_MAX + 1)) None) attrs rest).

Lemma tag_bounds : 0 <= tag <= TCA_AIFO_MAX /\ 0 <= tag < 2 ^ 16.
Proof.
  unfold tags in Htag. rewrite !elem_of_cons, elem_of_nil in Htag.
  unfold TCA_AIFO_MAX, __TCA_AIFO_MAX.
  destruct Htag as [->|[->|[->|[->|[->|[->|[->|[->|[]]]]]]]]];
    vm_compute; repeat split; congruence.
Qed.

Lemma print_if_absent print :
  supplied o tag = None -> print_if tb tag size print = [].
Proof.
  intros Hnone. unfold print_if.
  rewrite tb_get_tb_fill, tb_get_replicate;
    [|apply tag_bounds|apply length_replicate|exact Hok].
  pose proof (find_attr_spec attrs rest tag) as Hfind.
  destruct (find_attr tag attrs rest) as [p|]; [|reflexivity].
  destruct Hfind as (data & more & _ & Hdata).
  rewrite Hfields, payload_of_fields in Hdata by exact Htag. congruence.
Qed.

Lemma print_if_present print data :
  supplied o tag = Some data ->
  4 + Z.of_nat (length data) < 2 ^ 16 ->
  exists more,
    print_if tb tag size print
    = if size <=? Z.of_nat (length data)
      then [print (rtattr_bytes tag data ++ more)] else [].
Proof.
  intros Hsome Hlen. unfold print_if.
  rewrite tb_get_tb_fill, tb_get_replicate;
    [|apply tag_bounds|apply length_replicate|exact Hok].
  pose proof (find_attr_spec attrs rest tag) as Hfind.
  rewrite Hfields, payload_of_fields in Hfind by exact Htag.
  destruct (find_attr tag attrs rest) as [p|]; [|congruence].
  destruct Hfind as (data' & more & -> & Hdata).
  assert (data' = data) as -> by congruence.
  exists more. rewrite RTA_PAYLOAD_rtattr_bytes by exact Hlen.
  reflexivity.
Qed.

Lemma print_if_u32 :
  supplied o tag = (if absent then None else Some (to_bytes 4 (u32 v))) ->
  0 <= v < 2 ^ 32 -> size <= 4 ->
  print_if tb tag size (fun rta => pr (rta_getattr_u32 rta))
  = if absent then [] else [pr v].
Proof.
  intros Hsup Hv Hsize. destruct absent.
  - apply print_if_absent. exact Hsup.
  - destruct (print_if_present (fun rta => pr (rta_getattr_u32 rta))
                _ Hsup) as [more ->];
      [rewrite length_to_bytes; lia|].
    rewrite length_to_bytes.
    replace (size <=? _) with true by (symmetry; apply Z.leb_le; lia).
    unfold rta_getattr_u32. rewrite RTA_DATA_rtattr_bytes.
    rewrite u32_small, peek_u32 by exact Hv. reflexivity.
Qed.

Lemma print_if_u16 :
  supplied o tag = (if absent then None else Some (to_bytes 2 (u16 v))) ->
  0 <= v < 2 ^ 16 -> size <= 2 ->
  print_if tb tag size (fun rta => pr (rta_getattr_u16 rta))
  = if absent then [] else [pr v].
Proof.
  intros Hsup Hv Hsize. destruct absent.
  - apply print_if_absent. exact Hsup.
  - destruct (print_if_present (fun rta => pr (rta_getattr_u16 rta))
                _ Hsup) as [more ->];
      [rewrite length_to_bytes; lia|].
    rewrite length_to_bytes.
    replace (size <=? _) with true by (symmetry; apply Z.leb_le; lia).
    unfold rta_getattr_u16. rewrite RTA_DATA_rtattr_bytes.
    rewrite u16_small, peek_u16 by exact Hv. reflexivity.
Qed.
End OneTag.
End PrintFacts.

Lemma ilog2_range v : 0 <= v < 2 ^ 32 -> 0 <= ilog2 v <= 32.
Proof.
  intros Hv. destruct (Z.eq_dec v 0) as [->|Hnz]; [vm_compute; split; congruence|].
  rewrite ilog2_spec by lia. destruct (Z.eqb_spec v 1); [lia|].
  pose proof (Z.log2_nonneg (v - 1)).
  assert (Z.log2 (v - 1) < 32) by (apply Z.log2_lt_pow2; lia). lia.
Qed.

Section PrintBlock.
Context `{ByteOrder}.

(** Printing a block that holds the supplied fields of a record, with a
    buckets value up to 2^31, shows exactly those fields, whatever follows
    the block in memory. *)
Lemma aifo_print_opt_wire o attrs post :
  opts_ok o -> buckets o <= 2 ^ 31 ->
  map fst attrs = fields o -> Forall attr_ok attrs ->
  4 + Z.of_nat (length (wire attrs)) < 2 ^ 16 ->
  aifo_print_opt (Some (rtattr_bytes TCA_OPTIONS (wire attrs) ++ post))
  = (0, printed o, []).
Proof.
  intros (Hpl & Hbu & Hbk & Hhm & Hfl & Hss & Hsp & Hfg) Hmax Hfields Hok
    Hsize.
  unfold aifo_print_opt. rewrite parse_rtattr_nested_wire by assumption.
  pose proof (ilog2_range (buckets o) Hbk) as Hlog.
  rewrite (print_if_u32 o attrs post TCA_AIFO_PLIMIT sizeof_u32
             (plimit o =? 0xFFFFFFFF) (plimit o)
             (Uint "limit" "limit %up ") Hfields Hok);
    [|compute_done|reflexivity|exact Hpl|reflexivity].
  rewrite (print_if_u32 o attrs post TCA_AIFO_BURST sizeof_u16
             (burst o =? 0xFFFFFFFF) (burst o)
             (Uint "burst" "burst %u ") Hfields Hok);
    [|compute_done|reflexivity|exact Hbu|unfold sizeof_u16; lia].
  rewrite (print_if_u32 o attrs post TCA_AIFO_BUCKETS_LOG sizeof_u32
             (buckets o =? 0) (ilog2 (buckets o))
             (fun x => if x <? 32
                       then Uint "buckets" "buckets %u " (Z.shiftl 1 x)
                       else Undefined "buckets" "buckets %u ")
             Hfields Hok);
    [|compute_done|reflexivity|lia|reflexivity].
  rewrite (print_if_u32 o attrs post TCA_AIFO_HASH_MASK sizeof_u32
             (hash_mask o =? 0) (hash_mask o)
             (Uint "hash_mask" "hash_mask %u ") Hfields Hok);
    [|compute_done|reflexivity|exact Hhm|reflexivity].
  rewrite (print_if_u32 o attrs post TCA_AIFO_FLOW_PLIMIT sizeof_u32
             (flow_plimit o =? 0xFFFFFFFF) (flow_plimit o)
             (Uint "flow_limit" "flow_limit %up ") Hfields Hok);
    [|compute_done|reflexivity|exact Hfl|reflexivity].
  rewrite (print_if_u16 o attrs post TCA_AIFO_SAMPLE_SIZE sizeof_u16
             (sample_size o =? 0xFFFF) (sample_size o)
             (Uint "samples" "samples %u ") Hfields Hok);
    [|compute_done|reflexivity|exact Hss|reflexivity].
  rewrite (print_if_u16 o attrs post TCA_AIFO_SAMPLE_PERIOD sizeof_u16
             (sample_period o =? 0xFFFF) (sample_period o)
             (Uint "speriod" "speriod %u ") Hfields Hok);
    [|compute_done|reflexivity|exact Hsp|reflexivity].
  rewrite (print_if_u32 o attrs post TCA_AIFO_FLAGS sizeof_u32
             (negb (flags_upd o)) (flags o)
             (Uint "flags" "flags 0x%X ") Hfields Hok);
    [|compute_done|reflexivity|exact Hfg|reflexivity].
  unfold printed, tags. cbn [map concat]. rewrite app_nil_r.
  assert ((buckets o =? 0) = false -> (ilog2 (buckets o) <? 32) = true)
    as Hshift.
  { intros Hnz%Z.eqb_neq. apply Z.ltb_lt.
    destruct (ilog2_smallest (buckets o)) as [? _]; lia. }
  unfold shown at 3. cbn [Z.eqb TCA_AIFO_BUCKETS_LOG TCA_AIFO_PLIMIT
    TCA_AIFO_BURST Pos.eqb].
  destruct (buckets o =? 0); [reflexivity|].
  rewrite Hshift by reflexivity. reflexivity.
Qed.
End PrintBlock.

(** ** Writing into the buffer *)

Lemma poke_fits off bs m :
  0 <= off -> off + Z.of_nat (length bs) <= Z.of_nat (length m) ->
  poke off bs m
  = take (Z.to_nat off) m ++ bs ++ drop (Z.to_nat off + length bs) m.
Proof.
  intros Hoff Hfit. unfold poke.
  rewrite (proj2 (Z.leb_le 0 off)), (proj2 (Z.leb_le _ _)) by assumption.
  reflexivity.
Qed.

Lemma poke_app pre off bs m :
  0 <= off ->
  poke (Z.of_nat (length pre) + off) bs (pre ++ m) = pre ++ poke off bs m.
Proof.
  intros Hoff. unfold poke.
  rewrite (proj2 (Z.leb_le 0 off)), (proj2 (Z.leb_le 0 _)) by lia.
  cbn [andb]. rewrite length_app.
  destruct (Z.leb_spec (off + Z.of_nat (length bs)) (Z.of_nat (length m)))
    as [Hfit|Hover].
  - rewrite (proj2 (Z.leb_le _ _)) by lia.
    replace (Z.to_nat (Z.of_nat (length pre) + off))
      with (length pre + Z.to_nat off)%nat by lia.
    rewrite take_app_add, <- Nat.add_assoc, drop_app_add, <- app_assoc.
    reflexivity.
  - rewrite (proj2 (Z.leb_gt _ _)) by lia. reflexivity.
Qed.

Lemma poke_app_0 pre bs m :
  poke (Z.of_nat (length pre)) bs (pre ++ m) = pre ++ poke 0 bs m.
Proof.
  rewrite <- (poke_app pre 0) by lia. rewrite Z.add_0_r. reflexivity.
Qed.

Lemma poke_header (len_bytes type_bytes data m : list Z) :
  length len_bytes = 2%nat -> length type_bytes = 2%nat ->
  (4 + length data <= length m)%nat ->
  poke 4 data (poke 0 len_bytes (poke 2 type_bytes m))
  = len_bytes ++ type_bytes ++ data ++ drop (4 + length data) m.
Proof.
  intros Hl Ht Hm.
  destruct len_bytes as [|l0 [|l1 [|]]]; try discriminate.
  destruct type_bytes as [|t0 [|t1 [|]]]; try discriminate.
  destruct m as [|a [|b [|c [|d m]]]]; simpl in Hm; try lia.
  rewrite (poke_fits 2) by (cbn [length]; lia). simpl.
  rewrite (poke_fits 0) by (cbn [length]; lia). simpl. rewrite drop_0.
  rewrite (poke_fits 4) by (cbn [length]; lia).
  simpl. reflexivity.
Qed.

(** ** Appending attributes *)

Lemma RTA_ALIGN_payload n :
  (1 <= n <= 4)%nat -> RTA_ALIGN (4 + Z.of_nat n) = 8.
Proof. intros Hn. rewrite RTA_ALIGN_spec by lia. zdiv. Qed.

Section AddattrFacts.
Context `{ByteOrder}.

(** An append that fits: the attribute lands at the aligned tail. *)
Lemma addattr_l_fits maxlen type data len pre post err :
  NLMSG_ALIGN len = Z.of_nat (length pre) ->
  0 <= maxlen < 2 ^ 32 -> 4 + Z.of_nat (length data) < 2 ^ 16 ->
  Z.of_nat (length pre) + RTA_ALIGN (4 + Z.of_nat (length data)) <= maxlen ->
  (4 + length data <= length post)%nat ->
  addattr_l maxlen type data
    {| msg := {| nlmsg_len := len; nlmsg_buf := pre ++ post |};
       stderr := err |}
  = (0, {| msg :=
             {| nlmsg_len := Z.of_nat (length pre)
                             + RTA_ALIGN (4 + Z.of_nat (length data));
                nlmsg_buf := pre ++ rtattr_bytes type data
                             ++ drop (4 + length data) post |};
           stderr := err |}).
Proof.
  intros Halign Hmax Hlen Hfit Hpost.
  assert (0 <= RTA_ALIGN (4 + Z.of_nat (length data)))
    by (apply Z.mod_pos_bound; lia).
  cbv [addattr_l mbind M_bind get_msg put_msg mret M_ret fprintf_stderr
       NLMSG_TAIL].
  cbn [msg stderr nlmsg_len nlmsg_buf].
  rewrite Halign. change (RTA_LENGTH ?x) with (4 + x).
  rewrite (int_small (4 + _)) by lia.
  rewrite !u32_small by lia.
  rewrite (proj2 (Z.ltb_ge _ _)) by lia.
  change (4 + 0) with 4.
  rewrite poke_app, poke_app_0, poke_app by lia.
  rewrite poke_header by (rewrite ?length_to_bytes; lia).
  unfold rtattr_bytes. change (RTA_LENGTH ?x) with (4 + x).
  rewrite <- !app_assoc. reflexivity.
Qed.
End AddattrFacts.

Lemma when_true {A : Type} (stmt : M A) (k : M Z) e a e' :
  stmt e = (a, e') -> (when true stmt;; k) e = k e'.
Proof.
  intros Hstmt. cbv [when mbind M_bind mret M_ret]. rewrite Hstmt.
  reflexivity.
Qed.

Lemma when_false {A : Type} (stmt : M A) (k : M Z) e :
  (when false stmt;; k) e = k e.
Proof. reflexivity. Qed.

Lemma omap_cons_app {A B} (g : A -> option B) x l :
  omap g (x :: l) = option_list (g x) ++ omap g l.
Proof. rewrite omap_cons. destruct (g x); reflexivity. Qed.

Section AppendsFacts.
Context `{ByteOrder}.

Lemma space_payload data :
  (1 <= length data <= 4)%nat -> space data = 8%nat.
Proof. intros Hd. unfold space. rewrite RTA_ALIGN_payload by lia. lia. Qed.

Lemma addattr_l_building maxlen type data pre attrs post err :
  1024 <= maxlen < 2 ^ 32 -> (1 <= length data <= 4)%nat ->
  Z.of_nat (length pre) mod 4 = 0 ->
  Z.of_nat (length (wire attrs)) mod 4 = 0 ->
  Z.of_nat (length pre) + 4 + Z.of_nat (length (wire attrs)) + 8 <= 1024 ->
  (8 <= length post)%nat ->
  addattr_l maxlen type data (building pre attrs post err)
  = (0, building pre
          (attrs ++ [(type, data,
                      take (space data - 4 - length data)
                        (drop (4 + length data) post))])
          (drop (space data) post) err).
Proof.
  intros Hmax Hdata Hpre Hattrs Hfit Hpost. unfold building.
  rewrite (app_assoc pre), (app_assoc _ (wire attrs) post).
  rewrite (addattr_l_fits maxlen type data);
    rewrite ?length_app, ?length_rtattr_bytes; cbn [length];
    rewrite ?RTA_ALIGN_payload by lia; try lia.
  2:{ rewrite NLMSG_ALIGN_aligned; [lia|lia|].
      replace (Z.of_nat (length pre) + 4 + Z.of_nat (length (wire attrs)))
        with (Z.of_nat (length pre) + Z.of_nat (length (wire attrs)) + 1 * 4)
        by lia.
      rewrite Z.mod_add by lia. rewrite Z.add_mod, Hpre, Hattrs by lia.
      reflexivity. }
  rewrite space_payload by lia.
  rewrite wire_app. cbn [wire]. rewrite !length_app, length_rtattr_bytes.
  rewrite length_take, length_drop, app_nil_r. cbn [length].
  f_equal. f_equal. f_equal; [lia|].
  rewrite <- !app_assoc. do 4 f_equal.
  rewrite <- (take_drop (8 - 4 - length data) (drop (4 + length data) post))
    at 1.
  f_equal. rewrite drop_drop. f_equal. lia.
Qed.

Lemma add_all_fits steps : forall pre attrs post err k,
  Forall step_ok steps ->
  Z.of_nat (length pre) mod 4 = 0 ->
  Z.of_nat (length (wire attrs)) mod 4 = 0 ->
  Z.of_nat (length pre) + 4 + Z.of_nat (length (wire attrs))
    + Z.of_nat (needed steps) <= 1024 ->
  (needed steps <= length post)%nat ->
  add_all steps k (building pre attrs post err)
  = k (building pre (attrs ++ (emit steps post).1) (emit steps post).2 err).
Proof.
  induction steps as [|[[[c maxlen] type] data] steps IH];
    intros pre attrs post err k Hok Hpre Hattrs Hfit Hpost.
  - simpl. rewrite app_nil_r. reflexivity.
  - apply Forall_cons in Hok as [(Hmax & Htype & Hdata) Hok].
    cbn [add_all emit needed] in *. destruct c.
    + rewrite space_payload in * by exact Hdata.
      erewrite when_true by (apply addattr_l_building; lia).
      rewrite space_payload by exact Hdata.
      rewrite IH; try assumption.
      * destruct (emit steps (drop 8 post)) as [attrs' post'].
        cbn [fst snd]. rewrite <- app_assoc. reflexivity.
      * rewrite wire_app, length_app. cbn [wire].
        rewrite !length_app, length_rtattr_bytes, length_take, length_drop.
        cbn [length].
        replace (Z.of_nat _) with (Z.of_nat (length (wire attrs)) + 2 * 4)
          by lia.
        rewrite Z.mod_add by lia. exact Hattrs.
      * rewrite wire_app, length_app. cbn [wire].
        rewrite !length_app, length_rtattr_bytes, length_take, length_drop.
        cbn [length]. lia.
      * rewrite length_drop. lia.
    + rewrite when_false. apply IH; try assumption; lia.
Qed.

Lemma emit_ok steps : forall post,
  Forall step_ok steps -> (needed steps <= length post)%nat ->
  Forall attr_ok (emit steps post).1
  /\ length (wire (emit steps post).1) = needed steps
  /\ (length (emit steps post).2 + needed steps)%nat = length post.
Proof.
  induction steps as [|[[[c maxlen] type] data] steps IH];
    intros post Hok Hpost.
  - simpl. repeat split; [constructor|lia].
  - apply Forall_cons in Hok as [(Hmax & Htype & Hdata) Hok].
    cbn [emit needed] in *. destruct c.
    + rewrite space_payload in * by exact Hdata.
      destruct (IH (drop 8 post) Hok) as (Hattrs & Hwire & Hrest);
        [rewrite length_drop; lia|].
      rewrite length_drop in Hrest.
      destruct (emit steps (drop 8 post)) as [attrs' post'].
      cbn [fst snd wire] in *.
      rewrite !length_app, length_rtattr_bytes, length_take, length_drop.
      repeat split; [|lia|lia].
      constructor; [|exact Hattrs].
      unfold attr_ok. rewrite length_take, length_drop.
      rewrite RTA_ALIGN_payload by lia. lia.
    + apply IH; [exact Hok|lia].
Qed.

Lemma emit_selected steps : forall post,
  map fst (emit steps post).1
  = omap (fun '(c, _, type, data) => if c : bool then Some (type, data)
                                     else None) steps.
Proof.
  induction steps as [|[[[c maxlen] type] data] steps IH]; intros post.
  - reflexivity.
  - rewrite omap_cons. cbn [emit]. destruct c; [|apply IH].
    specialize (IH (drop (space data) post)).
    destruct (emit steps (drop (space data) post)) as [attrs' post'].
    cbn [fst snd map] in *. rewrite IH. reflexivity.
Qed.

Lemma emit_fields o post : map fst (emit (appends o) post).1 = fields o.
Proof.
  rewrite emit_selected. unfold appends, fields, tags.
  rewrite !omap_cons_app.
  repeat (f_equal;
          [unfold supplied; cbn;
           match goal with
           | |- context [negb ?c] => destruct c; reflexivity
           | |- context [if ?c then _ else _] => destruct c; reflexivity
           end|]).
  unfold supplied; cbn. destruct (flags_upd o); reflexivity.
Qed.

Lemma step_ok_appends o : Forall step_ok (appends o).
Proof.
  unfold appends.
  repeat (apply Forall_cons_2;
          [split; [unfold MAX_MSG; lia|];
           split; [vm_compute; split; congruence|];
           rewrite length_to_bytes; lia|]).
  apply Forall_nil_2.
Qed.

Lemma needed_emit steps post :
  Forall step_ok steps ->
  needed steps = (8 * length (emit steps post).1)%nat.
Proof.
  revert post. induction steps as [|[[[c maxlen] type] data] steps IH];
    intros post Hok.
  - reflexivity.
  - apply Forall_cons in Hok as [(Hmax & Htype & Hdata) Hok].
    cbn [emit needed]. destruct c; [|apply IH; exact Hok].
    rewrite space_payload by exact Hdata.
    rewrite (IH (drop 8 post)) by exact Hok.
    destruct (emit steps (drop 8 post)) as [attrs' post'].
    cbn [fst length]. lia.
Qed.

Lemma needed_appends o : needed (appends o) = (8 * length (fields o))%nat.
Proof.
  rewrite (needed_emit _ []) by apply step_ok_appends.
  rewrite <- (emit_fields o []), length_map. reflexivity.
Qed.
End AppendsFacts.

Section EncodeFacts.
Context `{ByteOrder}.

Lemma addattr_nest_building len buf err :
  NLMSG_ALIGN len + 4 <= 1024 ->
  NLMSG_ALIGN len + 4 <= Z.of_nat (length buf) ->
  addattr_nest 1024 TCA_OPTIONS
    {| msg := {| nlmsg_len := len; nlmsg_buf := buf |}; stderr := err |}
  = (NLMSG_ALIGN len,
     building (take (Z.to_nat (NLMSG_ALIGN len)) buf) []
       (drop (Z.to_nat (NLMSG_ALIGN len) + 4) buf) err).
Proof.
  intros Hfit Hbuf.
  assert (0 <= NLMSG_ALIGN len) by (apply Z.mod_pos_bound; lia).
  assert (Z.of_nat (length (take (Z.to_nat (NLMSG_ALIGN len)) buf))
          = NLMSG_ALIGN len) as Hpre by (rewrite length_take; lia).
  cbv [addattr_nest mbind M_bind get_msg mret M_ret NLMSG_TAIL].
  cbn [msg nlmsg_len].
  rewrite <- (take_drop (Z.to_nat (NLMSG_ALIGN len)) buf) at 1.
  rewrite (addattr_l_fits 1024 TCA_OPTIONS []);
    cbn [length]; rewrite ?Hpre, ?length_drop;
    change (RTA_ALIGN (4 + Z.of_nat 0)) with 4; try lia.
  unfold building. cbn [wire length]. rewrite Hpre, drop_drop.
  replace (NLMSG_ALIGN len + 4 + Z.of_nat 0) with (NLMSG_ALIGN len + 4)
    by lia.
  reflexivity.
Qed.

Lemma addattr_nest_end_building pre attrs post err :
  Z.of_nat (length pre) mod 4 = 0 ->
  Z.of_nat (length (wire attrs)) mod 4 = 0 ->
  Z.of_nat (length pre) + 4 + Z.of_nat (length (wire attrs)) < 2 ^ 16 ->
  addattr_nest_end (Z.of_nat (length pre)) (building pre attrs post err)
  = (Z.of_nat (length pre) + 4 + Z.of_nat (length (wire attrs)),
     {| msg :=
          {| nlmsg_len := Z.of_nat (length pre) + 4
                          + Z.of_nat (length (wire attrs));
             nlmsg_buf := pre ++ rtattr_bytes TCA_OPTIONS (wire attrs)
                          ++ post |};
        stderr := err |}).
Proof.
  intros Hpre Hattrs Hsize.
  cbv [addattr_nest_end mbind M_bind get_msg put_msg mret M_ret NLMSG_TAIL
       building].
  cbn [msg stderr nlmsg_len nlmsg_buf].
  rewrite NLMSG_ALIGN_aligned; [|lia|].
  2:{ replace (Z.of_nat (length pre) + 4 + Z.of_nat (length (wire attrs)))
        with (Z.of_nat (length pre) + Z.of_nat (length (wire attrs)) + 1 * 4)
        by lia.
      rewrite Z.mod_add by lia. rewrite Z.add_mod, Hpre, Hattrs by lia.
      reflexivity. }
  rewrite poke_app_0. unfold rtattr_bytes. rewrite <- !app_assoc.
  rewrite poke_fits
    by (rewrite ?length_app, ?length_to_bytes; cbn [length]; lia).
  cbn [Z.to_nat take Nat.add app].
  rewrite length_to_bytes, drop_app_length'
    by (rewrite length_to_bytes; reflexivity).
  cbn [length]. change (RTA_LENGTH ?x) with (4 + x).
  change (Z.to_nat 0) with 0%nat. rewrite take_0. cbn [app].
  replace (_ - Z.of_nat (length pre))
    with (4 + Z.of_nat (length (wire attrs))) by lia.
  reflexivity.
Qed.

(** The appends as one round of [add_all]. *)
Lemma aifo_add_attrs_add_all o e :
  aifo_add_attrs o e
  = (tail ← addattr_nest 1024 TCA_OPTIONS;
     add_all (appends o) (addattr_nest_end tail;; mret 0)) e.
Proof. reflexivity. Qed.

(** With room for the nest and the supplied fields below the bound of
    1024 and in the buffer, the call appends exactly one nest holding the
    supplied fields in tag order, and changes nothing before the tail. *)
Lemma aifo_add_attrs_fits o n err :
  let base := NLMSG_ALIGN (nlmsg_len n) in
  let size := 4 + 8 * Z.of_nat (length (fields o)) in
  base + size <= 1024 ->
  base + size <= Z.of_nat (length (nlmsg_buf n)) ->
  exists attrs post,
    aifo_add_attrs o {| msg := n; stderr := err |}
    = (0, {| msg :=
               {| nlmsg_len := base + size;
                  nlmsg_buf := take (Z.to_nat base) (nlmsg_buf n)
                               ++ rtattr_bytes TCA_OPTIONS (wire attrs)
                               ++ post |};
             stderr := err |})
    /\ map fst attrs = fields o /\ Forall attr_ok attrs
    /\ Z.of_nat (length (wire attrs)) = 8 * Z.of_nat (length (fields o)).
Proof.
  intros base size Hfit Hbuf. subst size.
  destruct n as [len buf]. cbn [nlmsg_len nlmsg_buf] in *.
  assert (0 <= base) by (apply Z.mod_pos_bound; lia).
  pose proof (NLMSG_ALIGN_mod4 len) as Hbase. fold base in Hbase.
  pose proof (step_ok_appends o) as Hsteps.
  pose proof (needed_appends o) as Hneeded.
  set (pre := take (Z.to_nat base) buf).
  set (post := drop (Z.to_nat base + 4) buf).
  assert (Z.of_nat (length pre) = base) as Hpre
    by (subst pre; rewrite length_take; lia).
  destruct (emit_ok (appends o) post Hsteps) as (Hattrs & Hwire & Hrest);
    [subst post; rewrite length_drop; lia|].
  exists (emit (appends o) post).1, (emit (appends o) post).2.
  split; [|split; [apply emit_fields|split; [exact Hattrs|lia]]].
  rewrite aifo_add_attrs_add_all. cbv [mbind M_bind].
  rewrite addattr_nest_building by lia. fold base pre post.
  assert (length post = (length buf - (Z.to_nat base + 4))%nat) as Hpost
    by (subst post; apply length_drop).
  rewrite add_all_fits
    by first [ exact Hsteps | rewrite Hpre; exact Hbase | reflexivity
             | cbn [wire length]; lia ].
  cbn [app]. cbv [mbind M_bind mret M_ret].
  rewrite <- Hpre at 1.
  rewrite addattr_nest_end_building;
    [|rewrite Hpre; exact Hbase
     |rewrite Hwire, Hneeded;
      replace (Z.of_nat (8 * length (fields o)))
        with (2 * Z.of_nat (length (fields o)) * 4) by lia;
      apply Z.mod_mul; lia
     |lia].
  replace (Z.of_nat (length pre) + 4 + _)
    with (base + (4 + 8 * Z.of_nat (length (fields o)))) by lia.
  reflexivity.
Qed.
End EncodeFacts.

(** ** The token loop *)

Ltac parse_cases H :=
  repeat (match type of H with
          | context [if ?b then _ else _] => destruct b eqn:?
          | context [match ?x with [] => _ | _ :: _ => _ end] =>
            destruct x eqn:?
          | context [match ?x with Some _ => _ | None => _ end] =>
            destruct x eqn:?
          end; try discriminate H).

Section ParseArgsFacts.
Context `{Strtoul}.

Lemma get_bounded_range max arg v :
  get_bounded max arg = Some v -> 0 <= v <= max.
Proof.
  unfold get_bounded. destruct (strtoul arg) as [res|]; [|discriminate].
  destruct (Z.ltb_spec max (Z.of_N res)); [discriminate|].
  intros [= <-]. lia.
Qed.

Lemma aifo_parse_args_ok id argv : forall o o',
  aifo_parse_args id argv o = Parsed o' -> opts_ok o -> opts_ok o'.
Proof.
  induction argv as [argv IH] using (induction_ltof1 _ (@length string)).
  unfold ltof in IH. intros o o' Hparse Hok.
  destruct argv as [|arg [|val rest]]; cbn [aifo_parse_args NEXT_ARG] in Hparse.
  - injection Hparse as <-. exact Hok.
  - parse_cases Hparse.
  - destruct Hok as (Hpl & Hbu & Hbk & Hhm & Hfl & Hss & Hsp & Hfg).
    parse_cases Hparse;
      (eapply IH; [|exact Hparse|]; [cbn [length]; lia|]);
      match goal with
      | Hget : _ = Some ?v |- _ =>
        apply get_bounded_range in Hget
      end;
      unfold opts_ok; cbn; repeat split; try lia.
Qed.

Lemma aifo_parse_args_app id pre : forall rest o o',
  aifo_parse_args id pre o = Parsed o' ->
  aifo_parse_args id (pre ++ rest) o = aifo_parse_args id rest o'.
Proof.
  induction pre as [pre IH] using (induction_ltof1 _ (@length string)).
  unfold ltof in IH. intros rest o o' Hparse.
  destruct pre as [|arg [|val pre]]; cbn [aifo_parse_args NEXT_ARG] in Hparse.
  - injection Hparse as <-. reflexivity.
  - parse_cases Hparse.
  - cbn [app aifo_parse_args NEXT_ARG].
    parse_cases Hparse; apply IH; try exact Hparse; cbn [length]; lia.
Qed.
Lemma aifo_parse_args_last_value id argv : forall o o',
  aifo_parse_args id argv o = Parsed o' ->
  plimit o'
  = last_value (fun a => strcmp0 a "limit") get_u32 argv (plimit o)
  /\ burst o'
     = last_value (fun a => strcmp0 a "burst") get_u32 argv (burst o)
  /\ buckets o'
     = last_value (fun a => strcmp0 a "buckets") get_unsigned argv (buckets o)
  /\ hash_mask o'
     = last_value (fun a => strcmp0 a "hash_mask") get_u32 argv (hash_mask o)
  /\ flow_plimit o'
     = last_value (fun a => strcmp0 a "flow_limit") get_u32 argv
         (flow_plimit o)
  /\ sample_size o'
     = last_value (fun a => strcmp0 a "samples") get_u16 argv (sample_size o)
  /\ sample_period o'
     = last_value (fun a => strcmp0 a "speriod") get_u16 argv
         (sample_period o)
  /\ flags o'
     = last_value (fun a => strcasecmp0 a "flags") get_unsigned argv (flags o).
Proof.
  induction argv as [argv IH] using (induction_ltof1 _ (@length string)).
  unfold ltof in IH. intros o o' Hparse.
  destruct argv as [|arg [|val rest]]; cbn [aifo_parse_args NEXT_ARG] in Hparse.
  - injection Hparse as <-. repeat split.
  - parse_cases Hparse.
  - cbn [last_value].
    parse_cases Hparse;
      (apply IH in Hparse; [|cbn [length]; lia]);
      repeat match goal with
             | Heq : strcmp0 _ _ = true |- _ =>
               apply String.eqb_eq in Heq; subst
             end;
      repeat match goal with
             | Heq : _ = false |- _ => rewrite Heq
             | Heq : _ = true |- _ => rewrite Heq
             | Heq : _ = Some _ |- _ => rewrite Heq
             end;
      exact Hparse.
Qed.

(** Taking the options of one name out of accepted tokens leaves them
    accepted; the variable of that name keeps the value it had and the
    others end as before. *)
Ltac without_option IH Hparse p :=
  parse_cases Hparse;
  (apply (fun Hlen => IH _ Hlen _ _ p) in Hparse; [|cbn [length]; lia]);
  repeat match goal with
         | Heq : strcmp0 _ _ = true |- _ =>
           apply String.eqb_eq in Heq; subst
         end;
  cbn beta;
  repeat match goal with
         | Heq : _ = false |- _ => rewrite Heq
         | Heq : _ = true |- _ => rewrite Heq
         end;
  cbn [strcmp0 String.eqb Ascii.eqb Bool.eqb]; cbn iota;
  cbn [aifo_parse_args NEXT_ARG];
  repeat match goal with
         | Heq : _ = false |- _ => rewrite Heq
         | Heq : _ = true |- _ => rewrite Heq
         | Heq : _ = Some _ |- _ => rewrite Heq
         end;
  cbn [strcmp0 strcasecmp0 lower tolower String.eqb Ascii.eqb Bool.eqb];
  try exact Hparse.

Lemma without_limit id argv : forall o o' p,
  aifo_parse_args id argv o = Parsed o' ->
  aifo_parse_args id (without (fun a => strcmp0 a "limit") argv)
    (set_plimit p o)
  = Parsed (set_plimit p o').
Proof.
  induction argv as [argv IH] using (induction_ltof1 _ (@length string)).
  unfold ltof in IH. intros o o' p Hparse.
  destruct argv as [|arg [|val rest]]; cbn [aifo_parse_args NEXT_ARG] in Hparse.
  - injection Hparse as <-. reflexivity.
  - parse_cases Hparse.
  - cbn [without]. without_option IH Hparse p.
Qed.

Lemma without_burst id argv : forall o o' p,
  aifo_parse_args id argv o = Parsed o' ->
  aifo_parse_args id (without (fun a => strcmp0 a "burst") argv)
    (set_burst p o)
  = Parsed (set_burst p o').
Proof.
  induction argv as [argv IH] using (induction_ltof1 _ (@length string)).
  unfold ltof in IH. intros o o' p Hparse.
  destruct argv as [|arg [|val rest]]; cbn [aifo_parse_args NEXT_ARG] in Hparse.
  - injection Hparse as <-. reflexivity.
  - parse_cases Hparse.
  - cbn [without]. without_option IH Hparse p.
Qed.

Lemma without_flow_limit id argv : forall o o' p,
  aifo_parse_args id argv o = Parsed o' ->
  aifo_parse_args id (without (fun a => strcmp0 a "flow_limit") argv)
    (set_flow_plimit p o)
  = Parsed (set_flow_plimit p o').
Proof.
  induction argv as [argv IH] using (induction_ltof1 _ (@length string)).
  unfold ltof in IH. intros o o' p Hparse.
  destruct argv as [|arg [|val rest]]; cbn [aifo_parse_args NEXT_ARG] in Hparse.
  - injection Hparse as <-. reflexivity.
  - parse_cases Hparse.
  - cbn [without]. without_option IH Hparse p.
Qed.

Lemma without_speriod id argv : forall o o' p,
  aifo_parse_args id argv o = Parsed o' ->
  aifo_parse_args id (without (fun a => strcmp0 a "speriod") argv)
    (set_sample_period p o)
  = Parsed (set_sample_period p o').
Proof.
  induction argv as [argv IH] using (induction_ltof1 _ (@length string)).
  unfold ltof in IH. intros o o' p Hparse.
  destruct argv as [|arg [|val rest]]; cbn [aifo_parse_args NEXT_ARG] in Hparse.
  - injection Hparse as <-. reflexivity.
  - parse_cases Hparse.
  - cbn [without]. without_option IH Hparse p.
Qed.

Lemma without_hash_mask id argv : forall o o' p,
  aifo_parse_args id argv o = Parsed o' ->
  aifo_parse_args id (without (fun a => strcmp0 a "hash_mask") argv)
    (set_hash_mask p o)
  = Parsed (set_hash_mask p o').
Proof.
  induction argv as [argv IH] using (induction_ltof1 _ (@length string)).
  unfold ltof in IH. intros o o' p Hparse.
  destruct argv as [|arg [|val rest]]; cbn [aifo_parse_args NEXT_ARG] in Hparse.
  - injection Hparse as <-. reflexivity.
  - parse_cases Hparse.
  - cbn [without]. without_option IH Hparse p.
Qed.

Lemma without_buckets id argv : forall o o' p,
  aifo_parse_args id argv o = Parsed o' ->
  aifo_parse_args id (without (fun a => strcmp0 a "buckets") argv)
    (set_buckets p o)
  = Parsed (set_buckets p o').
Proof.
  induction argv as [argv IH] using (induction_ltof1 _ (@length string)).
  unfold ltof in IH. intros o o' p Hparse.
  destruct argv as [|arg [|val rest]]; cbn [aifo_parse_args NEXT_ARG] in Hparse.
  - injection Hparse as <-. reflexivity.
  - parse_cases Hparse.
  - cbn [without]. without_option IH Hparse p.
Qed.

End ParseArgsFacts.

Section ReturnFacts.
Context `{ByteOrder}.

Lemma add_all_returns steps (k : M Z) r :
  (forall e, (k e).1 = r) -> forall e, (add_all steps k e).1 = r.
Proof.
  intros Hk. induction steps as [|[[[c maxlen] type] data] steps IH];
    intros e; cbn [add_all]; [apply Hk|].
  cbv [mbind M_bind]. destruct (when c _ e) as [[] e']. apply IH.
Qed.

(** The appends never fail the call. *)
Lemma aifo_add_attrs_returns o e : (aifo_add_attrs o e).1 = 0.
Proof.
  rewrite aifo_add_attrs_add_all. cbv [mbind M_bind].
  destruct (addattr_nest 1024 TCA_OPTIONS e) as [tail e'].
  apply add_all_returns. intros e''.
  destruct (addattr_nest_end tail e'') as [r e3]. reflexivity.
Qed.

(** A refused append leaves the request as it was. *)
Lemma addattr_l_refused maxlen type data e :
  (addattr_l maxlen type data e).1 = -1 ->
  msg (addattr_l maxlen type data e).2 = msg e
  /\ stderr (addattr_l maxlen type data e).2 = stderr e ++ [Exceeded maxlen].
Proof.
  cbv [addattr_l mbind M_bind get_msg put_msg mret M_ret fprintf_stderr].
  destruct (_ <? _); cbn [fst snd msg stderr]; [split; reflexivity|].
  discriminate.
Qed.
End ReturnFacts.

(** ** Encoding, then printing *)

Section RoundTrip.
Context `{ByteOrder} `{Strtoul}.

Lemma appended_tail n len pre block :
  Z.of_nat (length pre) = NLMSG_TAIL n ->
  appended n {| nlmsg_len := len; nlmsg_buf := pre ++ block |} = block.
Proof.
  intros Hpre. unfold appended. cbn [nlmsg_buf].
  apply drop_app_length'. lia.
Qed.

(** When the supplied fields fit, the call succeeds silently, leaves the
    bytes before the tail alone and appends one nest of the supplied
    fields in tag order. *)
Lemma aifo_parse_opt_fits id argv o n :
  aifo_parse_args id argv opts_init = Parsed o ->
  room n (length (fields o)) ->
  exists attrs rest,
    aifo_parse_opt id argv n
    = (0, {| nlmsg_len := NLMSG_TAIL n + (4 + 8 * Z.of_nat (length (fields o)));
             nlmsg_buf := take (Z.to_nat (NLMSG_TAIL n)) (nlmsg_buf n)
                          ++ rtattr_bytes TCA_OPTIONS (wire attrs)
                          ++ rest |}, [])
    /\ Z.of_nat (length (take (Z.to_nat (NLMSG_TAIL n)) (nlmsg_buf n)))
       = NLMSG_TAIL n
    /\ map fst attrs = fields o /\ Forall attr_ok attrs
    /\ Z.of_nat (length (wire attrs)) = 8 * Z.of_nat (length (fields o)).
Proof.
  intros Hparse [Hbound Hbuf]. unfold aifo_parse_opt. rewrite Hparse.
  destruct (aifo_add_attrs_fits o n []) as (attrs & rest & -> & Hrest);
    [unfold NLMSG_TAIL in *; lia..|].
  exists attrs, rest. split; [reflexivity|]. split; [|exact Hrest].
  assert (0 <= NLMSG_TAIL n) by (apply Z.mod_pos_bound; lia).
  rewrite length_take. lia.
Qed.

Lemma aifo_parse_opt_round_trip id argv o n :
  aifo_parse_args id argv opts_init = Parsed o ->
  room n (length (fields o)) -> buckets o <= 2 ^ 31 ->
  exists n',
    aifo_parse_opt id argv n = (0, n', [])
    /\ aifo_print_opt (Some (appended n n')) = (0, printed o, []).
Proof.
  intros Hparse Hroom Hmax.
  destruct (aifo_parse_opt_fits id argv o n Hparse Hroom)
    as (attrs & rest & -> & Hpre & Hfields & Hok & Hwire).
  eexists. split; [reflexivity|].
  rewrite appended_tail by exact Hpre.
  apply aifo_print_opt_wire; try assumption.
  - eapply aifo_parse_args_ok; [exact Hparse|].
    unfold opts_ok, opts_init. cbn. lia.
  - destruct Hroom as [Hbound _].
    assert (0 <= NLMSG_TAIL n) by (apply Z.mod_pos_bound; lia). lia.
Qed.

Lemma flags_upd_given id argv : forall o o',
  aifo_parse_args id argv o = Parsed o' ->
  flags_upd o' = flags_upd o || flags_given argv.
Proof.
  induction argv as [argv IH] using (induction_ltof1 _ (@length string)).
  unfold ltof in IH. intros o o' Hparse.
  destruct argv as [|arg [|val rest]]; cbn [aifo_parse_args NEXT_ARG] in Hparse.
  - injection Hparse as <-. unfold flags_given. cbn.
    rewrite orb_false_r. reflexivity.
  - parse_cases Hparse.
  - unfold flags_given in *. cbn [option_names existsb].
    parse_cases Hparse;
      (apply IH in Hparse; [|cbn [length]; lia]); rewrite Hparse;
      repeat match goal with
             | Heq : strcmp0 _ _ = true |- _ =>
               apply String.eqb_eq in Heq; subst
             end;
      try match goal with
          | Heq : strcasecmp0 _ _ = true |- _ => rewrite Heq
          end;
      cbn; rewrite ?orb_true_r; reflexivity.
Qed.
End RoundTrip.

(** * Statements about the specification *)

Section Claims.
Context `{ByteOrder} `{Strtoul}.

Lemma wire_single attrs type data :
  map fst attrs = [(type, data)] -> Forall attr_ok attrs ->
  exists pad,
    wire attrs = rtattr_bytes type data ++ pad
    /\ 4 + Z.of_nat (length data) + Z.of_nat (length pad)
       = RTA_ALIGN (4 + Z.of_nat (length data)).
Proof.
  intros Hmap Hok.
  destruct attrs as [|[[type' data'] pad] [|? ?]]; try discriminate.
  injection Hmap as -> ->. apply Forall_cons in Hok as [(_ & _ & Hpad) _].
  exists pad. cbn [wire]. rewrite app_nil_r. split; [reflexivity|exact Hpad].
Qed.

Lemma room_le n k k' : (k' <= k)%nat -> room n k -> room n k'.
Proof. intros Hk [Hbound Hbuf]. split; lia. Qed.

Lemma parse_buckets id val v rest o :
  get_unsigned val = Some v ->
  aifo_parse_args id ("buckets" :: val :: rest) o
  = aifo_parse_args id rest (set_buckets v o).
Proof. intros Hget. cbn. rewrite Hget. reflexivity. Qed.

(** C1. For a token [val] that reads as v with 1 <= v <= 2^31, encoding
    [buckets val] appends a nest holding one BUCKETS_LOG attribute whose
    value ilog2 v is the smallest k with 2^k >= v, and printing that
    block shows the field buckets with value 1 << k; when [val] reads as
    0 the nest is empty and nothing is printed. *)
Theorem buckets_log_round_trip id val v n :
  get_unsigned val = Some v -> v <= 2 ^ 31 -> room n 1 ->
  exists n',
    aifo_parse_opt id ["buckets"; val] n = (0, n', [])
    /\ (v = 0 ->
        (exists rest, appended n n' = rtattr_bytes TCA_OPTIONS [] ++ rest)
        /\ aifo_print_opt (Some (appended n n')) = (0, [], []))
    /\ (1 <= v ->
        (exists rest,
           appended n n'
           = rtattr_bytes TCA_OPTIONS
               (rtattr_bytes TCA_AIFO_BUCKETS_LOG (to_bytes 4 (ilog2 v)))
             ++ rest)
        /\ v <= 2 ^ ilog2 v
        /\ (forall j, 0 <= j -> v <= 2 ^ j -> ilog2 v <= j)
        /\ aifo_print_opt (Some (appended n n'))
           = (0, [Uint "buckets" "buckets %u " (Z.shiftl 1 (ilog2 v))],
              [])).
Proof.
  intros Hget Hv Hroom.
  pose proof (get_bounded_range _ _ _ Hget) as Hrange.
  pose proof (parse_buckets id val v [] opts_init Hget) as Hparse.
  change (aifo_parse_args id [] ?o) with (Parsed o) in Hparse.
  destruct (Z.eq_dec v 0) as [->|Hnz].
  - assert (fields (set_buckets 0 opts_init) = []) as Hfields
      by reflexivity.
    destruct (aifo_parse_opt_fits id _ _ n Hparse)
      as (attrs & rest & Hrun & Hpre & Hmap & Hok & Hwire);
      [rewrite Hfields; exact (room_le n 1 0 ltac:(lia) Hroom)|].
    destruct (aifo_parse_opt_round_trip id _ _ n Hparse)
      as (n' & Hrun' & Hprint);
      [rewrite Hfields; exact (room_le n 1 0 ltac:(lia) Hroom)
      |cbn [buckets set_buckets]; lia|].
    exists n'. split; [exact Hrun'|]. split; [|lia]. intros _.
    split; [|exact Hprint].
    rewrite Hrun in Hrun'. injection Hrun' as <-.
    rewrite Hfields in Hmap. destruct attrs; [|discriminate].
    exists rest. apply appended_tail. exact Hpre.
  - assert (fields (set_buckets v opts_init)
            = [(TCA_AIFO_BUCKETS_LOG, to_bytes 4 (u32 (ilog2 v)))]
            /\ printed (set_buckets v opts_init)
               = [Uint "buckets" "buckets %u " (Z.shiftl 1 (ilog2 v))])
      as [Hfields Hprinted].
    { unfold fields, printed, tags, supplied, shown.
      cbn [plimit burst buckets hash_mask flow_plimit sample_size
           sample_period flags flags_upd set_buckets opts_init].
      rewrite (proj2 (Z.eqb_neq v 0) Hnz). split; reflexivity. }
    destruct (ilog2_smallest v ltac:(lia)) as (Hk & Hpow & Hmin).
    assert (u32 (ilog2 v) = ilog2 v) as Hu by (apply u32_small; lia).
    rewrite Hu in Hfields.
    destruct (aifo_parse_opt_fits id _ _ n Hparse)
      as (attrs & rest & Hrun & Hpre & Hmap & Hok & Hwire);
      [rewrite Hfields; exact Hroom|].
    destruct (aifo_parse_opt_round_trip id _ _ n Hparse)
      as (n' & Hrun' & Hprint);
      [rewrite Hfields; exact Hroom|cbn [buckets set_buckets]; lia|].
    exists n'. split; [exact Hrun'|]. split; [lia|]. intros _.
    rewrite Hprinted in Hprint.
    split; [|split; [exact Hpow|split; [exact Hmin|exact Hprint]]].
    rewrite Hrun in Hrun'. injection Hrun' as <-.
    rewrite Hfields in Hmap.
    destruct (wire_single _ _ _ Hmap Hok) as (pad & Hw & Hpad).
    rewrite length_to_bytes, RTA_ALIGN_payload in Hpad by lia.
    destruct pad; [|cbn [length] in Hpad; lia].
    rewrite app_nil_r in Hw. rewrite Hw.
    exists rest. apply appended_tail. exact Hpre.
Qed.

Lemma opts_init_ok : opts_ok opts_init.
Proof. unfold opts_ok, opts_init. cbn. lia. Qed.

(** C4. Whatever the order of the tokens, when the supplied fields fit
    the call appends, at the tail of the message and nowhere else, one
    TCA_OPTIONS attribute whose payload is the attributes of the supplied
    fields in the order of the tag enumeration and whose length field
    covers them all; the message length grows by that length. *)
Theorem fields_in_tag_order id argv o n :
  aifo_parse_args id argv opts_init = Parsed o ->
  room n (length (fields o)) ->
  exists n' attrs rest,
    aifo_parse_opt id argv n = (0, n', [])
    /\ take (Z.to_nat (NLMSG_TAIL n)) (nlmsg_buf n')
       = take (Z.to_nat (NLMSG_TAIL n)) (nlmsg_buf n)
    /\ appended n n' = rtattr_bytes TCA_OPTIONS (wire attrs) ++ rest
    /\ map fst attrs = fields o
    /\ fields o = omap (fun tag => pair tag <$> supplied o tag) tags
    /\ map fst (fields o) `sublist_of` tags
    /\ rta_type (appended n n') = TCA_OPTIONS
    /\ rta_len (appended n n') = 4 + Z.of_nat (length (wire attrs))
    /\ Z.of_nat (length (wire attrs)) = 8 * Z.of_nat (length (fields o))
    /\ nlmsg_len n' = NLMSG_TAIL n + rta_len (appended n n').
Proof.
  intros Hparse Hroom.
  destruct (aifo_parse_opt_fits id argv o n Hparse Hroom)
    as (attrs & rest & Hrun & Hpre & Hfields & Hok & Hwire).
  destruct Hroom as [Hbound Hbuf].
  assert (0 <= NLMSG_TAIL n) as Htail by (apply Z.mod_pos_bound; lia).
  eexists _, attrs, rest. split; [exact Hrun|].
  rewrite appended_tail by exact Hpre. cbn [nlmsg_buf nlmsg_len].
  rewrite rta_len_rtattr_bytes, rta_type_rtattr_bytes
    by (unfold TCA_OPTIONS; lia).
  repeat split; try reflexivity; try assumption; try lia.
  - rewrite take_app_le by (rewrite length_take; lia).
    rewrite take_take. f_equal. lia.
  - unfold fields. clear. induction tags as [|tag l IH]; [constructor|].
    rewrite omap_cons.
    destruct (supplied o tag); cbn [fmap option_fmap option_map map fst];
      [apply sublist_skip|apply sublist_cons]; exact IH.
Qed.

Lemma capacity_unreported_helper id argv o n :
  aifo_parse_args id argv opts_init = Parsed o ->
  (aifo_parse_opt id argv n).1.1 = 0.
Proof.
  intros Hparse. unfold aifo_parse_opt. rewrite Hparse.
  pose proof (aifo_add_attrs_returns o {| msg := n; stderr := [] |}) as Hret.
  destruct (aifo_add_attrs o _) as [r e]. exact Hret.
Qed.

(** One append, as far as the message length and stderr go. *)
Lemma addattr_l_attempt maxlen type data e :
  0 <= nlmsg_len (msg e) < 2 ^ 31 -> 0 <= maxlen <= MAX_MSG ->
  (length data <= 4)%nat ->
  let len' :=
    NLMSG_ALIGN (nlmsg_len (msg e))
    + RTA_ALIGN (4 + Z.of_nat (length data)) in
  let e' := (addattr_l maxlen type data e).2 in
  if maxlen <? len'
  then nlmsg_len (msg e') = nlmsg_len (msg e)
       /\ stderr e' = stderr e ++ [Exceeded maxlen]
  else nlmsg_len (msg e') = len' /\ stderr e' = stderr e.
Proof.
  intros Hlen Hmax Hdata len' e'. subst len' e'. unfold MAX_MSG in Hmax.
  cbv [addattr_l mbind M_bind get_msg put_msg mret M_ret fprintf_stderr].
  change (RTA_LENGTH ?x) with (4 + x).
  rewrite (int_small (4 + _)) by lia.
  rewrite (u32_small maxlen) by lia.
  assert (4 <= RTA_ALIGN (4 + Z.of_nat (length data)) <= 8) as Halign
    by (rewrite RTA_ALIGN_spec by lia; zdiv).
  assert (0 <= NLMSG_ALIGN (nlmsg_len (msg e)) < 2 ^ 31 + 4) as Htail
    by (rewrite NLMSG_ALIGN_spec by lia; zdiv).
  rewrite u32_small by lia.
  destruct (_ <? _); cbn [fst snd msg stderr nlmsg_len]; split; reflexivity.
Qed.

(** The appends of a list, as far as the message length and stderr go. *)
Lemma add_all_attempts steps (k : M Z) :
  Forall (fun '(_, maxlen, _, data) =>
            0 <= maxlen <= MAX_MSG /\ (length data <= 4)%nat) steps ->
  (forall e, nlmsg_len (msg (k e).2) = nlmsg_len (msg e)
             /\ stderr (k e).2 = stderr e) ->
  forall e,
    0 <= nlmsg_len (msg e) < 2 ^ 31 ->
    nlmsg_len (msg (add_all steps k e).2)
    = (attempts steps (nlmsg_len (msg e))).1
    /\ stderr (add_all steps k e).2
       = stderr e ++ (attempts steps (nlmsg_len (msg e))).2.
Proof.
  intros Hsteps Hk.
  induction steps as [|[[[c maxlen] type] data] steps IH]; intros e Hlen.
  - cbn [add_all attempts fst snd]. rewrite app_nil_r. apply Hk.
  - apply Forall_cons in Hsteps as [[Hmax Hdata] Hsteps].
    specialize (IH Hsteps). cbn [add_all attempts]. destruct c; cbn [negb].
    + pose proof (addattr_l_attempt maxlen type data e Hlen Hmax Hdata)
        as Hstep.
      cbv zeta in Hstep.
      destruct (addattr_l maxlen type data e) as [r e'] eqn:Hrun.
      erewrite when_true by exact Hrun. cbn [snd] in Hstep.
      destruct (Z.ltb_spec maxlen
                  (NLMSG_ALIGN (nlmsg_len (msg e))
                   + RTA_ALIGN (4 + Z.of_nat (length data))))
        as [Hover|Hfit]; destruct Hstep as [Hlen' Herr].
      * destruct (IH e') as [IHlen IHerr]; [lia|].
        rewrite Hlen' in IHlen, IHerr. rewrite Herr in IHerr.
        destruct (attempts steps (nlmsg_len (msg e))) as [last err].
        cbn [fst snd] in *. rewrite <- app_assoc in IHerr.
        split; [exact IHlen|exact IHerr].
      * assert (0 <= NLMSG_ALIGN (nlmsg_len (msg e)))
          by (apply Z.mod_pos_bound; lia).
        assert (0 <= RTA_ALIGN (4 + Z.of_nat (length data)))
          by (apply Z.mod_pos_bound; lia).
        unfold MAX_MSG in Hmax.
        destruct (IH e') as [IHlen IHerr]; [lia|].
        rewrite Hlen' in IHlen, IHerr. rewrite Herr in IHerr.
        split; [exact IHlen|exact IHerr].
    + rewrite when_false. apply IH. exact Hlen.
Qed.

Lemma aifo_add_attrs_attempts o n :
  0 <= nlmsg_len n < 2 ^ 31 ->
  let e' := (aifo_add_attrs o {| msg := n; stderr := [] |}).2 in
  nlmsg_len (msg e')
  = (attempts ((true, 1024, TCA_OPTIONS, []) :: appends o) (nlmsg_len n)).1
  /\ stderr e'
     = (attempts ((true, 1024, TCA_OPTIONS, []) :: appends o)
          (nlmsg_len n)).2.
Proof.
  intros Hlen e'. subst e'. rewrite aifo_add_attrs_add_all.
  cbv [mbind M_bind addattr_nest get_msg mret M_ret]. cbn [msg].
  pose proof (addattr_l_attempt 1024 TCA_OPTIONS []
                {| msg := n; stderr := [] |} Hlen
                ltac:(unfold MAX_MSG; lia) ltac:(cbn [length]; lia))
    as Hnest.
  cbv zeta in Hnest. cbn [msg stderr app] in Hnest.
  destruct (addattr_l 1024 TCA_OPTIONS [] _) as [r e]. cbn [snd] in Hnest.
  assert (Forall (fun '(_, maxlen, _, data) =>
                    0 <= maxlen <= MAX_MSG /\ (length data <= 4)%nat)
            (appends o)) as Hsteps.
  { unfold appends, MAX_MSG.
    repeat (apply Forall_cons_2;
            [split; [lia|rewrite length_to_bytes; lia]|]).
    apply Forall_nil_2. }
  pose proof (add_all_attempts (appends o)
                (addattr_nest_end (NLMSG_TAIL n);; mret 0) Hsteps
                ltac:(intros; split; reflexivity) e) as Hrest.
  cbn [attempts negb].
  assert (0 <= NLMSG_ALIGN (nlmsg_len n)) by (apply Z.mod_pos_bound; lia).
  assert (0 <= RTA_ALIGN (4 + Z.of_nat (@length Z [])))
    by (apply Z.mod_pos_bound; lia).
  destruct (Z.ltb_spec 1024
              (NLMSG_ALIGN (nlmsg_len n)
               + RTA_ALIGN (4 + Z.of_nat (@length Z []))))
    as [Hover|Hfit]; destruct Hnest as [Hlen' Herr].
  - destruct Hrest as [IHlen IHerr]; [lia|].
    rewrite Hlen' in IHlen, IHerr. rewrite Herr in IHerr.
    destruct (attempts (appends o) (nlmsg_len n)) as [last err].
    split; [exact IHlen|exact IHerr].
  - destruct Hrest as [IHlen IHerr]; [lia|].
    rewrite Hlen' in IHlen, IHerr. rewrite Herr in IHerr.
    split; [exact IHlen|exact IHerr].
Qed.

(** C3 (as amended). The call does not report a lack of capacity: once
    the tokens are accepted it returns 0 whatever the message length and
    the buffer, because the results of the append helpers are not looked
    at; an append that is refused leaves the message as it was and only
    writes to stderr; and the appends after it are still attempted: on a
    well-formed request the nest and each supplied field, in tag order, is
    taken or refused against its own bound, whatever became of those
    before it. *)
Theorem capacity_not_reported id argv o n :
  aifo_parse_args id argv opts_init = Parsed o ->
  (aifo_parse_opt id argv n).1.1 = 0
  /\ (forall maxlen type data e,
        (addattr_l maxlen type data e).1 = -1 ->
        msg (addattr_l maxlen type data e).2 = msg e
        /\ stderr (addattr_l maxlen type data e).2
           = stderr e ++ [Exceeded maxlen])
  /\ (well_formed_request n ->
      nlmsg_len (aifo_parse_opt id argv n).1.2
      = (attempts ((true, 1024, TCA_OPTIONS, []) :: appends o)
           (nlmsg_len n)).1
      /\ (aifo_parse_opt id argv n).2
         = (attempts ((true, 1024, TCA_OPTIONS, []) :: appends o)
              (nlmsg_len n)).2).
Proof.
  intros Hparse. split; [|split; [apply addattr_l_refused|]].
  - eapply capacity_unreported_helper. exact Hparse.
  - intros [[Hhdr Hlen] _]. unfold NLMSG_HDRLEN in Hhdr.
    pose proof (aifo_add_attrs_attempts o n ltac:(lia)) as Hrun.
    cbv zeta in Hrun. unfold aifo_parse_opt. rewrite Hparse.
    destruct (aifo_add_attrs o _) as [r e]. exact Hrun.
Qed.

(** C5 (as amended). Printing the options never fails: the call returns
    0 for an absent block, for an empty one, for one whose outer header
    cannot be read, and whatever the inner attributes are. *)
Theorem aifo_print_opt_never_fails opt : (aifo_print_opt opt).1.1 = 0.
Proof.
  destruct opt as [opt|]; [|reflexivity]. unfold aifo_print_opt.
  destruct (parse_rtattr_nested TCA_AIFO_MAX opt) as [[r tb] err].
  reflexivity.
Qed.

Lemma length_layout members :
  length (layout members) = foldr (fun m acc => (m.1 + acc)%nat) 0%nat members.
Proof.
  unfold layout. induction members as [|[n v] members IH]; [reflexivity|].
  cbn [map concat foldr fst snd]. rewrite length_app, length_to_bytes, IH.
  reflexivity.
Qed.

(** A member is read back at the offset that the members before it add up
    to. *)
Lemma layout_peek pre n v post more :
  peek n (drop (foldr (fun m acc => (m.1 + acc)%nat) 0%nat pre)
            (layout (pre ++ (n, v) :: post) ++ more))
  = v mod 2 ^ (8 * Z.of_nat n).
Proof.
  rewrite <- length_layout. unfold layout.
  rewrite map_app, concat_app. cbn [map concat fst snd].
  rewrite <- !app_assoc.
  rewrite drop_app_length. apply peek_to_bytes.
Qed.

(** C6 (as amended). For a statistics attribute whose header declares at
    least its own four bytes, printing fails with -1 and prints nothing
    when the payload is shorter than struct tc_aifo_xstats, and otherwise
    returns 0 and prints flows, flows_gc, alloc_errors, no_mark, drop_mark
    and quant_avg, followed by backlog_peak and qlen_peak unless both are
    zero; for a payload that starts with the bytes of a structure these are
    the values of its members, flows_gc cut to 32 bits and quant_avg_1k
    rounded to a float. *)
Theorem xstats_all_or_nothing xstats :
  sizeof_rtattr <= rta_len xstats < 2 ^ 16 ->
  let size := rta_len xstats - sizeof_rtattr in
  let data := RTA_DATA xstats in
  let backlog := peek 4 (drop off_backlog_peak data) in
  let qlen := peek 4 (drop off_qlen_peak data) in
  (size < sizeof_tc_aifo_xstats -> aifo_print_xstats (Some xstats) = (-1, []))
  /\ (sizeof_tc_aifo_xstats <= size ->
      aifo_print_xstats (Some xstats)
      = (0,
         [ Uint "flows" "  flows %u" (peek 4 (drop off_flows data));
           Uint "flows_gc" " gc %u" (u32 (peek 8 (drop off_flows_gc data)));
           Uint "alloc_errors" " alloc_errors %u"
             (peek 4 (drop off_alloc_errors data));
           Uint "no_mark" no_mark_fmt (peek 4 (drop off_no_mark data));
           Uint "drop_mark" " drop_mark %u"
             (peek 4 (drop off_drop_mark data));
           Float "quant_avg" " quant_avg %.3f"
             (float_of_u32 (peek 4 (drop off_quant_avg_1k data))) 1024 ]
         ++ (if (backlog =? 0) && (qlen =? 0) then []
             else [ Uint "backlog_peak" "  backlog_peak %ub" backlog;
                    Uint "qlen_peak" " %up" qlen ])))
  /\ (forall type st pad extra more,
        xstats_ok st ->
        4 + Z.of_nat (length (xstats_bytes st pad ++ extra)) < 2 ^ 16 ->
        xstats = rtattr_bytes type (xstats_bytes st pad ++ extra) ++ more ->
        aifo_print_xstats (Some xstats) = (0, xstats_shown st)).
Proof.
  intros Hlen size data backlog qlen.
  assert (RTA_PAYLOAD xstats = size) as Hpayload.
  { unfold RTA_PAYLOAD. change (RTA_LENGTH 0) with sizeof_rtattr.
    apply size_t_small. unfold sizeof_rtattr in *. lia. }
  assert (sizeof_tc_aifo_xstats <= size ->
          aifo_print_xstats (Some xstats)
          = (0,
             [ Uint "flows" "  flows %u" (peek 4 (drop off_flows data));
               Uint "flows_gc" " gc %u"
                 (u32 (peek 8 (drop off_flows_gc data)));
               Uint "alloc_errors" " alloc_errors %u"
                 (peek 4 (drop off_alloc_errors data));
               Uint "no_mark" no_mark_fmt (peek 4 (drop off_no_mark data));
               Uint "drop_mark" " drop_mark %u"
                 (peek 4 (drop off_drop_mark data));
               Float "quant_avg" " quant_avg %.3f"
                 (float_of_u32 (peek 4 (drop off_quant_avg_1k data))) 1024 ]
             ++ (if (backlog =? 0) && (qlen =? 0) then []
                 else [ Uint "backlog_peak" "  backlog_peak %ub" backlog;
                        Uint "qlen_peak" " %up" qlen ]))) as Hall.
  { intros Hsize. unfold aifo_print_xstats. rewrite Hpayload.
    rewrite (proj2 (Z.ltb_ge _ _)) by exact Hsize.
    fold data. fold backlog. fold qlen.
    destruct (backlog =? 0), (qlen =? 0); reflexivity. }
  split; [|split; [exact Hall|]].
  - intros Hsize. unfold aifo_print_xstats. rewrite Hpayload.
    rewrite (proj2 (Z.ltb_lt _ _)) by exact Hsize. reflexivity.
  - intros type st pad extra more
      (Hfl & Hgc & Hae & Hnm & Hdm & Hql & Hbl & Hqa) Hfit Hbytes.
    assert (size = Z.of_nat (length (xstats_bytes st pad ++ extra)))
      as Hsz.
    { subst size. rewrite Hbytes, rta_len_rtattr_bytes by exact Hfit.
      unfold sizeof_rtattr. lia. }
    assert (data = xstats_bytes st pad ++ extra ++ more) as Hdata.
    { subst data. rewrite Hbytes, RTA_DATA_rtattr_bytes, <- app_assoc.
      reflexivity. }
    rewrite Hall.
    2:{ rewrite Hsz, length_app. unfold xstats_bytes.
        rewrite length_layout. cbn [xstats_members foldr fst].
        unfold sizeof_tc_aifo_xstats. lia. }
    assert (forall pre n v post,
              xstats_members st pad = pre ++ (n, v) :: post ->
              0 <= v < 2 ^ (8 * Z.of_nat n) ->
              peek n (drop (foldr (fun m acc => (m.1 + acc)%nat) 0%nat pre)
                        data) = v) as Hread.
    { intros pre n v post Hsplit Hv. rewrite Hdata. unfold xstats_bytes.
      rewrite Hsplit, layout_peek. apply Z.mod_small. exact Hv. }
    assert (peek 4 (drop off_flows data) = flows st) as ->
      by (apply (Hread [] 4%nat _ (tail (xstats_members st pad)));
          [reflexivity|exact Hfl]).
    assert (peek 8 (drop off_flows_gc data) = flows_gc st) as ->
      by (apply (Hread (take 2 (xstats_members st pad)) 8%nat _
                   (drop 3 (xstats_members st pad)));
          [reflexivity|exact Hgc]).
    assert (peek 4 (drop off_alloc_errors data) = alloc_errors st) as ->
      by (apply (Hread (take 3 (xstats_members st pad)) 4%nat _
                   (drop 4 (xstats_members st pad)));
          [reflexivity|exact Hae]).
    assert (peek 4 (drop off_no_mark data) = no_mark st) as ->
      by (apply (Hread (take 4 (xstats_members st pad)) 4%nat _
                   (drop 5 (xstats_members st pad)));
          [reflexivity|exact Hnm]).
    assert (peek 4 (drop off_drop_mark data) = drop_mark st) as ->
      by (apply (Hread (take 5 (xstats_members st pad)) 4%nat _
                   (drop 6 (xstats_members st pad)));
          [reflexivity|exact Hdm]).
    assert (qlen = qlen_peak st) as ->
      by (apply (Hread (take 6 (xstats_members st pad)) 4%nat _
                   (drop 7 (xstats_members st pad)));
          [reflexivity|exact Hql]).
    assert (backlog = backlog_peak st) as ->
      by (apply (Hread (take 7 (xstats_members st pad)) 4%nat _
                   (drop 8 (xstats_members st pad)));
          [reflexivity|exact Hbl]).
    assert (peek 4 (drop off_quant_avg_1k data) = quant_avg_1k st) as ->
      by (apply (Hread (take 8 (xstats_members st pad)) 4%nat _ []);
          [reflexivity|exact Hqa]).
    reflexivity.
Qed.

Lemma parse_flags id val v rest o :
  get_unsigned val = Some v ->
  aifo_parse_args id ("flags" :: val :: rest) o
  = aifo_parse_args id rest (set_flags v o).
Proof. intros Hget. cbn. rewrite Hget. reflexivity. Qed.

(** C7. Encoding [flags val] with [val] reading as 0 appends a FLAGS
    attribute of value 0, printed as flags 0; and for any accepted token
    sequence the output holds a FLAGS attribute exactly when a flags
    option was among the tokens, with the value last given, zero or not.
    Printing the block shows the supplied fields, flags among them exactly
    in that case, when the buckets value is at most 2^31, so that the shift
    of the printer is defined. *)
Theorem flags_presence id argv o val n1 n2 :
  get_unsigned val = Some 0 -> room n1 1 ->
  aifo_parse_args id argv opts_init = Parsed o ->
  room n2 (length (fields o)) ->
  (exists n' rest,
     aifo_parse_opt id ["flags"; val] n1 = (0, n', [])
     /\ appended n1 n'
        = rtattr_bytes TCA_OPTIONS
            (rtattr_bytes TCA_AIFO_FLAGS (to_bytes 4 0)) ++ rest
     /\ aifo_print_opt (Some (appended n1 n'))
        = (0, [Uint "flags" "flags 0x%X " 0], []))
  /\ (exists n' attrs rest,
        aifo_parse_opt id argv n2 = (0, n', [])
        /\ appended n2 n' = rtattr_bytes TCA_OPTIONS (wire attrs) ++ rest
        /\ payload_of TCA_AIFO_FLAGS (map fst attrs)
           = (if flags_given argv then Some (to_bytes 4 (flags o))
              else None)
        /\ (buckets o <= 2 ^ 31 ->
            aifo_print_opt (Some (appended n2 n')) = (0, printed o, []))
        /\ shown o TCA_AIFO_FLAGS
           = (if flags_given argv
              then [Uint "flags" "flags 0x%X " (flags o)] else [])).
Proof.
  intros Hget Hroom1 Hparse Hroom2. split.
  - pose proof (parse_flags id val 0 [] opts_init Hget) as Hparse1.
    change (aifo_parse_args id [] ?o) with (Parsed o) in Hparse1.
    assert (fields (set_flags 0 opts_init)
            = [(TCA_AIFO_FLAGS, to_bytes 4 0)]) as Hfields by reflexivity.
    destruct (aifo_parse_opt_fits id _ _ n1 Hparse1)
      as (attrs & rest & Hrun & Hpre & Hmap & Hok & Hwire);
      [rewrite Hfields; exact Hroom1|].
    destruct (aifo_parse_opt_round_trip id _ _ n1 Hparse1)
      as (n' & Hrun' & Hprint); [rewrite Hfields; exact Hroom1|cbn; lia|].
    exists n', rest. split; [exact Hrun'|]. split; [|exact Hprint].
    rewrite Hrun in Hrun'. injection Hrun' as <-.
    rewrite Hfields in Hmap.
    destruct (wire_single _ _ _ Hmap Hok) as (pad & Hw & Hpad).
    rewrite length_to_bytes, RTA_ALIGN_payload in Hpad by lia.
    destruct pad; [|cbn [length] in Hpad; lia].
    rewrite app_nil_r in Hw. rewrite Hw. apply appended_tail. exact Hpre.
  - destruct (aifo_parse_opt_fits id argv o n2 Hparse Hroom2)
      as (attrs & rest & Hrun & Hpre & Hmap & Hok & Hwire).
    pose proof (flags_upd_given id argv _ _ Hparse) as Hupd.
    cbn [flags_upd opts_init orb] in Hupd.
    pose proof (aifo_parse_args_ok id argv _ _ Hparse opts_init_ok)
      as (_ & _ & _ & _ & _ & _ & _ & Hflags).
    eexists _, attrs, rest. split; [exact Hrun|].
    split; [apply appended_tail; exact Hpre|].
    split; [|split].
    + rewrite Hmap, payload_of_fields by compute_done.
      unfold supplied. cbn. rewrite Hupd, u32_small by exact Hflags.
      destruct (flags_given argv); reflexivity.
    + intros Hmax.
      destruct (aifo_parse_opt_round_trip id argv o n2 Hparse Hroom2 Hmax)
        as (n' & Hrun' & Hprint).
      rewrite Hrun in Hrun'. injection Hrun' as <-. exact Hprint.
    + unfold shown. cbn. rewrite Hupd.
      destruct (flags_given argv); reflexivity.
Qed.

Lemma parse_samples id val v rest o :
  get_u16 val = Some v ->
  aifo_parse_args id ("samples" :: val :: rest) o
  = if AIFO_SAMPLE_SIZE_MAX <? v then Failed (-1) [TooBig "samples"]
    else aifo_parse_args id rest (set_sample_size v o).
Proof. intros Hget. cbn. rewrite Hget. reflexivity. Qed.

(** C8. After any accepted tokens, a samples option whose value reads as
    v fails the call with the too-big message exactly when v exceeds
    1024: above 1024 the call returns -1, and up to 1024 the loop goes on
    with sample_size set; [samples val] alone then succeeds and appends a
    SAMPLE_SIZE attribute of value v, printed as samples v. *)
Theorem samples_ceiling id pre o val v rest n :
  aifo_parse_args id pre opts_init = Parsed o ->
  get_u16 val = Some v -> room n 1 ->
  (AIFO_SAMPLE_SIZE_MAX < v ->
   aifo_parse_opt id (pre ++ "samples" :: val :: rest) n
   = (-1, n, [TooBig "samples"]))
  /\ (v <= AIFO_SAMPLE_SIZE_MAX ->
      aifo_parse_args id (pre ++ "samples" :: val :: rest) opts_init
      = aifo_parse_args id rest (set_sample_size v o)
      /\ exists n' pad tail,
           aifo_parse_opt id ["samples"; val] n = (0, n', [])
           /\ appended n n'
              = rtattr_bytes TCA_OPTIONS
                  (rtattr_bytes TCA_AIFO_SAMPLE_SIZE (to_bytes 2 v) ++ pad)
                ++ tail
           /\ length pad = 2%nat
           /\ aifo_print_opt (Some (appended n n'))
              = (0, [Uint "samples" "samples %u " v], [])).
Proof.
  intros Hpre Hget Hroom.
  pose proof (get_bounded_range _ _ _ Hget) as Hrange.
  unfold AIFO_SAMPLE_SIZE_MAX. split; intros Hv.
  - unfold aifo_parse_opt.
    rewrite (aifo_parse_args_app id pre _ _ _ Hpre).
    rewrite (parse_samples id val v) by exact Hget.
    unfold AIFO_SAMPLE_SIZE_MAX.
    rewrite (proj2 (Z.ltb_lt _ _)) by exact Hv. reflexivity.
  - split.
    + rewrite (aifo_parse_args_app id pre _ _ _ Hpre).
      rewrite (parse_samples id val v) by exact Hget.
      unfold AIFO_SAMPLE_SIZE_MAX.
      rewrite (proj2 (Z.ltb_ge _ _)) by exact Hv. reflexivity.
    + pose proof (parse_samples id val v [] opts_init Hget) as Hparse.
      unfold AIFO_SAMPLE_SIZE_MAX in Hparse.
      rewrite (proj2 (Z.ltb_ge _ _)) in Hparse by exact Hv.
      change (aifo_parse_args id [] ?o) with (Parsed o) in Hparse.
      assert (fields (set_sample_size v opts_init)
              = [(TCA_AIFO_SAMPLE_SIZE, to_bytes 2 (u16 v))]
              /\ printed (set_sample_size v opts_init)
                 = [Uint "samples" "samples %u " v])
        as [Hfields Hprinted].
      { unfold fields, printed, tags, supplied, shown.
        cbn [plimit burst buckets hash_mask flow_plimit sample_size
             sample_period flags flags_upd set_sample_size opts_init].
        rewrite (proj2 (Z.eqb_neq v 65535)) by lia. split; reflexivity. }
      rewrite u16_small in Hfields by lia.
      destruct (aifo_parse_opt_fits id _ _ n Hparse)
        as (attrs & tail & Hrun & Htail & Hmap & Hok & Hwire);
        [rewrite Hfields; exact Hroom|].
      destruct (aifo_parse_opt_round_trip id _ _ n Hparse)
        as (n' & Hrun' & Hprint); [rewrite Hfields; exact Hroom|cbn; lia|].
      rewrite Hprinted in Hprint.
      rewrite Hrun in Hrun'. injection Hrun' as <-.
      rewrite Hfields in Hmap.
      destruct (wire_single _ _ _ Hmap Hok) as (pad & Hw & Hpad).
      rewrite length_to_bytes, RTA_ALIGN_payload in Hpad by lia.
      eexists _, pad, tail. split; [exact Hrun|].
      split; [|split; [lia|exact Hprint]].
      rewrite <- Hw. apply appended_tail. exact Htail.
Qed.

Lemma parse_unrecognized id arg rest o :
  recognized arg = false ->
  aifo_parse_args id (arg :: rest) o = Failed (-1) [Unknown id arg; Usage].
Proof.
  unfold recognized. rewrite !orb_false_iff.
  intros ((((((((H1 & H2) & H3) & H4) & H5) & H6) & H7) & H8) & H9).
  cbn [aifo_parse_args NEXT_ARG]. rewrite H1, H2, H3, H4, H5, H6, H7, H8, H9.
  reflexivity.
Qed.

Lemma aifo_parse_args_failed id argv : forall o r err,
  aifo_parse_args id argv o = Failed r err -> r = -1.
Proof.
  induction argv as [argv IH] using (induction_ltof1 _ (@length string)).
  unfold ltof in IH. intros o r err Hparse.
  destruct argv as [|arg [|val rest]]; cbn [aifo_parse_args NEXT_ARG] in Hparse.
  - discriminate.
  - parse_cases Hparse; injection Hparse as <- _; reflexivity.
  - parse_cases Hparse;
      first [ injection Hparse as <- _; reflexivity
            | eapply IH; [|exact Hparse]; cbn [length]; lia ].
Qed.

Lemma aifo_parse_args_recognized id argv : forall o o',
  aifo_parse_args id argv o = Parsed o' ->
  Forall (fun name => recognized name = true) (option_names argv).
Proof.
  induction argv as [argv IH] using (induction_ltof1 _ (@length string)).
  unfold ltof in IH. intros o o' Hparse.
  destruct argv as [|arg [|val rest]]; cbn [aifo_parse_args NEXT_ARG] in Hparse.
  - constructor.
  - constructor.
  - cbn [option_names].
    parse_cases Hparse;
      (constructor; [|eapply IH; [|exact Hparse]; cbn [length]; lia]);
      unfold recognized;
      repeat match goal with
             | Heq : _ = true |- _ => rewrite Heq
             | Heq : _ = false |- _ => rewrite Heq
             end;
      reflexivity.
Qed.

(** C9. When the loop meets an unrecognized option name, after tokens
    it accepted, the call returns -1 with the unknown-parameter message
    and the usage, and the request is as it was; a sequence with an
    unrecognized option name anywhere fails and leaves the request as it
    was; and so does every failure of the token loop, which are the only
    failures of the call. *)
Theorem failed_call_leaves_request id pre o arg rest n :
  aifo_parse_args id pre opts_init = Parsed o -> recognized arg = false ->
  aifo_parse_opt id (pre ++ arg :: rest) n = (-1, n, [Unknown id arg; Usage])
  /\ (forall argv,
        Exists (fun name => recognized name = false) (option_names argv) ->
        exists err, aifo_parse_opt id argv n = (-1, n, err))
  /\ (forall argv r err,
        aifo_parse_args id argv opts_init = Failed r err ->
        r = -1 /\ aifo_parse_opt id argv n = (r, n, err))
  /\ (forall argv,
        (aifo_parse_opt id argv n).1.1 <> 0 ->
        (aifo_parse_opt id argv n).1.2 = n).
Proof.
  intros Hpre Harg. split; [|split; [|split]].
  - unfold aifo_parse_opt.
    rewrite (aifo_parse_args_app id pre _ _ _ Hpre).
    rewrite parse_unrecognized by exact Harg.
    reflexivity.
  - intros argv Hbad. unfold aifo_parse_opt.
    destruct (aifo_parse_args id argv opts_init) as [o'|r err] eqn:Hparse.
    + apply aifo_parse_args_recognized in Hparse.
      apply Exists_exists in Hbad as (name & Hin & Hname).
      rewrite Forall_forall in Hparse. specialize (Hparse name Hin).
      congruence.
    + apply aifo_parse_args_failed in Hparse as ->. exists err. reflexivity.
  - intros argv r err Hparse. split.
    + eapply aifo_parse_args_failed. exact Hparse.
    + unfold aifo_parse_opt. rewrite Hparse. reflexivity.
  - intros argv. unfold aifo_parse_opt.
    destruct (aifo_parse_args id argv opts_init) as [o'|r err];
      [|reflexivity].
    pose proof (aifo_add_attrs_returns o' {| msg := n; stderr := [] |})
      as Hret.
    destruct (aifo_add_attrs o' _) as [r e]. cbn [fst snd] in *. congruence.
Qed.

Lemma aifo_parse_opt_same id argv argv' o n :
  aifo_parse_args id argv opts_init = Parsed o ->
  aifo_parse_args id argv' opts_init = Parsed o ->
  aifo_parse_opt id argv n = aifo_parse_opt id argv' n.
Proof.
  intros Hparse Hparse'. unfold aifo_parse_opt.
  rewrite Hparse, Hparse'. reflexivity.
Qed.

(** C10. A value equal to the one the variable starts with is taken as
    not given. After [limit], [burst] or [flow_limit] with 4294967295,
    [speriod] with 65535, [hash_mask] with 0 or [buckets] with 0 as the
    first option, the call does exactly what it does on the remaining
    tokens alone; with no token left that is a success, an empty nest and
    nothing to print. And wherever the options stand among accepted
    tokens: when the value last given for one of these names is that
    value, the call does exactly what it does on the tokens without the
    options of that name, it succeeds, and the nest it appends holds no
    attribute of that field. *)
Theorem sentinel_values_omitted id val rest n :
  (get_u32 val = Some 4294967295 ->
   aifo_parse_opt id ("limit" :: val :: rest) n = aifo_parse_opt id rest n
   /\ aifo_parse_opt id ("burst" :: val :: rest) n
      = aifo_parse_opt id rest n
   /\ aifo_parse_opt id ("flow_limit" :: val :: rest) n
      = aifo_parse_opt id rest n)
  /\ (get_u16 val = Some 65535 ->
      aifo_parse_opt id ("speriod" :: val :: rest) n
      = aifo_parse_opt id rest n)
  /\ (get_u32 val = Some 0 ->
      aifo_parse_opt id ("hash_mask" :: val :: rest) n
      = aifo_parse_opt id rest n)
  /\ (get_unsigned val = Some 0 ->
      aifo_parse_opt id ("buckets" :: val :: rest) n
      = aifo_parse_opt id rest n)
  /\ (aifo_parse_opt id [] n).1.1 = 0
  /\ (room n 0 ->
      exists n' tail,
        aifo_parse_opt id [] n = (0, n', [])
        /\ appended n n' = rtattr_bytes TCA_OPTIONS [] ++ tail
        /\ aifo_print_opt (Some (appended n n')) = (0, [], []))
  /\ (forall argv o,
        aifo_parse_args id argv opts_init = Parsed o ->
        let limit_unset :=
          last_value (fun a => strcmp0 a "limit") get_u32 argv 4294967295
          = 4294967295 in
        let burst_unset :=
          last_value (fun a => strcmp0 a "burst") get_u32 argv 4294967295
          = 4294967295 in
        let flow_limit_unset :=
          last_value (fun a => strcmp0 a "flow_limit") get_u32 argv
            4294967295
          = 4294967295 in
        let speriod_unset :=
          last_value (fun a => strcmp0 a "speriod") get_u16 argv 65535
          = 65535 in
        let hash_mask_unset :=
          last_value (fun a => strcmp0 a "hash_mask") get_u32 argv 0 = 0 in
        let buckets_unset :=
          last_value (fun a => strcmp0 a "buckets") get_unsigned argv 0
          = 0 in
        (aifo_parse_opt id argv n).1.1 = 0
        /\ (limit_unset ->
            aifo_parse_opt id argv n
            = aifo_parse_opt id
                (without (fun a => strcmp0 a "limit") argv) n)
        /\ (burst_unset ->
            aifo_parse_opt id argv n
            = aifo_parse_opt id
                (without (fun a => strcmp0 a "burst") argv) n)
        /\ (flow_limit_unset ->
            aifo_parse_opt id argv n
            = aifo_parse_opt id
                (without (fun a => strcmp0 a "flow_limit") argv) n)
        /\ (speriod_unset ->
            aifo_parse_opt id argv n
            = aifo_parse_opt id
                (without (fun a => strcmp0 a "speriod") argv) n)
        /\ (hash_mask_unset ->
            aifo_parse_opt id argv n
            = aifo_parse_opt id
                (without (fun a => strcmp0 a "hash_mask") argv) n)
        /\ (buckets_unset ->
            aifo_parse_opt id argv n
            = aifo_parse_opt id
                (without (fun a => strcmp0 a "buckets") argv) n)
        /\ (room n (length (fields o)) ->
            exists n' attrs tail,
              aifo_parse_opt id argv n = (0, n', [])
              /\ appended n n'
                 = rtattr_bytes TCA_OPTIONS (wire attrs) ++ tail
              /\ (limit_unset ->
                  payload_of TCA_AIFO_PLIMIT (map fst attrs) = None)
              /\ (burst_unset ->
                  payload_of TCA_AIFO_BURST (map fst attrs) = None)
              /\ (flow_limit_unset ->
                  payload_of TCA_AIFO_FLOW_PLIMIT (map fst attrs) = None)
              /\ (speriod_unset ->
                  payload_of TCA_AIFO_SAMPLE_PERIOD (map fst attrs) = None)
              /\ (hash_mask_unset ->
                  payload_of TCA_AIFO_HASH_MASK (map fst attrs) = None)
              /\ (buckets_unset ->
                  payload_of TCA_AIFO_BUCKETS_LOG (map fst attrs) = None))).
Proof.
  split; [|split; [|split; [|split; [|split; [|split]]]]].
  1-4: intros Hget; repeat split; unfold aifo_parse_opt; cbn;
    rewrite Hget; reflexivity.
  - apply (capacity_unreported_helper id [] opts_init n). reflexivity.
  - intros Hroom.
    assert (aifo_parse_args id [] opts_init = Parsed opts_init) as Hparse
      by reflexivity.
    destruct (aifo_parse_opt_fits id _ _ n Hparse)
      as (attrs & tail & Hrun & Htail & Hmap & Hok & Hwire);
      [exact Hroom|].
    destruct (aifo_parse_opt_round_trip id _ _ n Hparse)
      as (n' & Hrun' & Hprint); [exact Hroom|cbn; lia|].
    rewrite Hrun in Hrun'. injection Hrun' as <-.
    change (fields opts_init) with (@nil (Z * list Z)) in Hmap.
    destruct attrs; [|discriminate].
    eexists _, tail. split; [exact Hrun|]. split; [|exact Hprint].
    apply appended_tail. exact Htail.
  - intros argv o Hparse.
    pose proof (aifo_parse_args_last_value id argv _ _ Hparse)
      as (Hpl & Hbu & Hbk & Hhm & Hfl & Hss & Hsp & Hfg).
    cbn [plimit burst buckets hash_mask flow_plimit sample_period
         opts_init] in Hpl, Hbu, Hbk, Hhm, Hfl, Hsp.
    cbv zeta. rewrite <- Hpl, <- Hbu, <- Hbk, <- Hhm, <- Hfl, <- Hsp.
    split; [apply (capacity_unreported_helper id argv o n Hparse)|].
    split; [|split; [|split; [|split; [|split; [|split]]]]].
    + intros Heq. apply (aifo_parse_opt_same id _ _ o n Hparse).
      pose proof (without_limit id argv _ _ 4294967295 Hparse) as Hw.
      rewrite <- Heq in Hw at 2. destruct o; exact Hw.
    + intros Heq. apply (aifo_parse_opt_same id _ _ o n Hparse).
      pose proof (without_burst id argv _ _ 4294967295 Hparse) as Hw.
      rewrite <- Heq in Hw at 2. destruct o; exact Hw.
    + intros Heq. apply (aifo_parse_opt_same id _ _ o n Hparse).
      pose proof (without_flow_limit id argv _ _ 4294967295 Hparse) as Hw.
      rewrite <- Heq in Hw at 2. destruct o; exact Hw.
    + intros Heq. apply (aifo_parse_opt_same id _ _ o n Hparse).
      pose proof (without_speriod id argv _ _ 65535 Hparse) as Hw.
      rewrite <- Heq in Hw at 2. destruct o; exact Hw.
    + intros Heq. apply (aifo_parse_opt_same id _ _ o n Hparse).
      pose proof (without_hash_mask id argv _ _ 0 Hparse) as Hw.
      rewrite <- Heq in Hw at 2. destruct o; exact Hw.
    + intros Heq. apply (aifo_parse_opt_same id _ _ o n Hparse).
      pose proof (without_buckets id argv _ _ 0 Hparse) as Hw.
      rewrite <- Heq in Hw at 2. destruct o; exact Hw.
    + intros Hroom.
      destruct (aifo_parse_opt_fits id argv o n Hparse Hroom)
        as (attrs & tail & Hrun & Htail & Hmap & Hok & Hwire).
      eexists _, attrs, tail. split; [exact Hrun|].
      split; [apply appended_tail; exact Htail|].
      rewrite Hmap, !payload_of_fields by compute_done.
      unfold supplied. cbn.
      repeat split; intros ->; reflexivity.
Qed.
End Claims.

(** * Runs on concrete inputs

    Little-endian host, decimal tokens, a request of 36 bytes in a zeroed
    buffer of 2048. *)

Ltac room_ok := unfold room; split; apply Z.leb_le; reflexivity.

Ltac request_ok :=
  split; [split; [apply Z.leb_le|apply Z.ltb_lt]|apply Z.leb_le];
  reflexivity.

Lemma buckets_log_round_trip_witness :
  exists n',
    aifo_parse_opt "aifo_stfq" ["buckets"; "1000"] (request 36) = (0, n', [])
    /\ ilog2 1000 = 10
    /\ (exists rest,
          appended (request 36) n'
          = rtattr_bytes TCA_OPTIONS
              (rtattr_bytes TCA_AIFO_BUCKETS_LOG (to_bytes 4 10)) ++ rest)
    /\ aifo_print_opt (Some (appended (request 36) n'))
       = (0, [Uint "buckets" "buckets %u " 1024], []).
Proof.
  destruct (buckets_log_round_trip "aifo_stfq" "1000" 1000 (request 36))
    as (n' & Hrun & _ & Hpos); [reflexivity|lia|room_ok|].
  destruct Hpos as (Hbytes & _ & _ & Hprint); [lia|].
  exists n'. split; [exact Hrun|]. split; [reflexivity|].
  split; [exact Hbytes|exact Hprint].
Defined.

Lemma fields_in_tag_order_witness :
  exists n' attrs rest,
    aifo_parse_opt "aifo_stfq" ["flags"; "1"; "samples"; "7"; "limit"; "5"]
      (request 36) = (0, n', [])
    /\ appended (request 36) n' = rtattr_bytes TCA_OPTIONS (wire attrs) ++ rest
    /\ map fst attrs
       = [ (TCA_AIFO_PLIMIT, to_bytes 4 5);
           (TCA_AIFO_SAMPLE_SIZE, to_bytes 2 7);
           (TCA_AIFO_FLAGS, to_bytes 4 1) ]
    /\ nlmsg_len n' = 36 + 28.
Proof.
  destruct (fields_in_tag_order "aifo_stfq"
              ["flags"; "1"; "samples"; "7"; "limit"; "5"]
              (set_plimit 5 (set_sample_size 7 (set_flags 1 opts_init)))
              (request 36))
    as (n' & attrs & rest & Hrun & _ & Hbytes & Hmap & _ & _ & _ & Hlen
        & Hwire & Hn');
    [reflexivity|room_ok|].
  exists n', attrs, rest. split; [exact Hrun|]. split; [exact Hbytes|].
  split; [exact Hmap|].
  rewrite Hn', Hlen, Hwire. reflexivity.
Defined.

(** The same three options in two orders give the same request. *)
Example token_order_is_irrelevant :
  aifo_parse_opt "aifo_stfq" ["flags"; "1"; "samples"; "7"; "limit"; "5"]
    (request 36)
  = aifo_parse_opt "aifo_stfq" ["limit"; "5"; "samples"; "7"; "flags"; "1"]
      (request 36).
Proof. vm_compute. reflexivity. Qed.

(** C2, at the failing input. A block whose BURST attribute has a two-byte
    payload: burst is printed all the same, from the two payload bytes and
    the two bytes after them, because its length is checked against two
    bytes; the same block with the PLIMIT type prints nothing. *)
Theorem burst_short_payload_printed :
  aifo_print_opt (Some [12; 0; 2; 0;  6; 0; 2; 0;  0x34; 0x12; 0; 0])
  = (0, [Uint "burst" "burst %u " 0x1234], [])
  /\ aifo_print_opt (Some [12; 0; 2; 0;  6; 0; 1; 0;  0x34; 0x12; 0; 0])
     = (0, [], []).
Proof. split; vm_compute; reflexivity. Qed.

(** C3, counterexample. With 1016 bytes in the message the nest fits the
    bound of 1024 but the PLIMIT attribute does not: the refusal goes to
    stderr, the call still returns 0, and the message it leaves holds the
    BURST attribute alone. *)
Lemma capacity_failure_returns_success :
  ~ room (request 1016) 2
  /\ exists n',
       aifo_parse_opt "aifo_stfq" ["limit"; "5"; "burst"; "7"] (request 1016)
       = (0, n', [Exceeded 1024])
       /\ nlmsg_len n' = 1028
       /\ aifo_print_opt (Some (appended (request 1016) n'))
          = (0, [Uint "burst" "burst %u " 7], []).
Proof.
  split.
  - intros [Hbound _]. vm_compute in Hbound. congruence.
  - eexists. split; [vm_compute; reflexivity|].
    split; vm_compute; reflexivity.
Qed.

Lemma capacity_not_reported_witness :
  (aifo_parse_opt "aifo_stfq" ["limit"; "5"; "burst"; "7"] (request 1016)).1.1
  = 0
  /\ nlmsg_len
       (aifo_parse_opt "aifo_stfq" ["limit"; "5"; "burst"; "7"]
          (request 1016)).1.2
     = 1028
  /\ (aifo_parse_opt "aifo_stfq" ["limit"; "5"; "burst"; "7"]
        (request 1016)).2
     = [Exceeded 1024].
Proof.
  destruct (capacity_not_reported "aifo_stfq" ["limit"; "5"; "burst"; "7"]
              (set_burst 7 (set_plimit 5 opts_init)) (request 1016))
    as (Hret & _ & Hrest); [reflexivity|].
  destruct Hrest as [Hlen Herr]; [request_ok|].
  split; [exact Hret|]. split.
  - rewrite Hlen. reflexivity.
  - rewrite Herr. reflexivity.
Defined.

(** C5, counterexample. A block whose header declares two bytes, less
    than the header itself, is printed without failure: the call returns 0
    and only a deficit goes to stderr. *)
Lemma unreadable_header_not_reported :
  nest_header_ok [2; 0; 2; 0; 0; 0; 0; 0] = false
  /\ aifo_print_opt (Some [2; 0; 2; 0; 0; 0; 0; 0]) = (0, [], [Deficit (-2) 0])
  /\ ~ (forall opt : list Z,
         (aifo_print_opt (Some opt)).1.1 <> 0 <-> nest_header_ok opt = false).
Proof.
  split; [reflexivity|]. split; [reflexivity|].
  intros Hclaim. destruct (Hclaim [2; 0; 2; 0; 0; 0; 0; 0]) as [_ Hfails].
  apply Hfails; reflexivity.
Qed.

Lemma xstats_all_or_nothing_witness :
  aifo_print_xstats (Some ([43; 0; 7; 0] ++ replicate 39 1)) = (-1, [])
  /\ aifo_print_xstats
       (Some
          (rtattr_bytes 7
             (xstats_bytes
                {| flows := 1; flows_gc := 2 ^ 32 + 2; alloc_errors := 3;
                   no_mark := 4; drop_mark := 5; qlen_peak := 6;
                   backlog_peak := 7; quant_avg_1k := 2 ^ 24 + 1 |} 0
              ++ [9; 9])
           ++ [8; 8]))
     = (0, [ Uint "flows" "  flows %u" 1; Uint "flows_gc" " gc %u" 2;
             Uint "alloc_errors" " alloc_errors %u" 3;
             Uint "no_mark" no_mark_fmt 4;
             Uint "drop_mark" " drop_mark %u" 5;
             Float "quant_avg" " quant_avg %.3f" (2 ^ 24) 1024;
             Uint "backlog_peak" "  backlog_peak %ub" 7;
             Uint "qlen_peak" " %up" 6 ]).
Proof.
  split.
  - refine (proj1 (xstats_all_or_nothing ([43; 0; 7; 0] ++ replicate 39 1) _)
              _);
      vm_compute; [split; congruence|reflexivity].
  - refine (proj2 (proj2 (xstats_all_or_nothing _ _)) 7
              {| flows := 1; flows_gc := 2 ^ 32 + 2; alloc_errors := 3;
                 no_mark := 4; drop_mark := 5; qlen_peak := 6;
                 backlog_peak := 7; quant_avg_1k := 2 ^ 24 + 1 |} 0
              [9; 9] [8; 8] _ _ eq_refl).
    + vm_compute. split; congruence.
    + vm_compute. repeat split; congruence.
    + vm_compute. reflexivity.
Defined.

(** C6, counterexample. A header that declares two bytes, fewer than its
    own four: the size left for the structure is below 40, and is even
    negative, yet the call returns 0 and prints the fields, because the
    payload length is computed in size_t and wraps. parse_rtattr never hands
    out such an attribute. *)
Lemma xstats_below_header_rendered :
  rta_len ([2; 0; 7; 0] ++ replicate 40 0) - sizeof_rtattr
  < sizeof_tc_aifo_xstats
  /\ aifo_print_xstats (Some ([2; 0; 7; 0] ++ replicate 40 0))
     = (0, [ Uint "flows" "  flows %u" 0; Uint "flows_gc" " gc %u" 0;
             Uint "alloc_errors" " alloc_errors %u" 0;
             Uint "no_mark" no_mark_fmt 0;
             Uint "drop_mark" " drop_mark %u" 0;
             Float "quant_avg" " quant_avg %.3f" 0 1024 ])
  /\ ~ (forall xstats : list Z,
         rta_len xstats - sizeof_rtattr < sizeof_tc_aifo_xstats ->
         aifo_print_xstats (Some xstats) = (-1, [])).
Proof.
  split; [reflexivity|]. split; [reflexivity|].
  intros Hclaim.
  specialize (Hclaim ([2; 0; 7; 0] ++ replicate 40 0) eq_refl).
  discriminate Hclaim.
Qed.

Lemma flags_presence_witness :
  (exists n' rest,
     aifo_parse_opt "aifo_stfq" ["flags"; "0"] (request 36) = (0, n', [])
     /\ appended (request 36) n'
        = rtattr_bytes TCA_OPTIONS
            (rtattr_bytes TCA_AIFO_FLAGS (to_bytes 4 0)) ++ rest
     /\ aifo_print_opt (Some (appended (request 36) n'))
        = (0, [Uint "flags" "flags 0x%X " 0], []))
  /\ (exists n' attrs rest,
        aifo_parse_opt "aifo_stfq" ["limit"; "5"] (request 36) = (0, n', [])
        /\ appended (request 36) n'
           = rtattr_bytes TCA_OPTIONS (wire attrs) ++ rest
        /\ payload_of TCA_AIFO_FLAGS (map fst attrs) = None
        /\ aifo_print_opt (Some (appended (request 36) n'))
           = (0, [Uint "limit" "limit %up " 5], [])
        /\ shown (set_plimit 5 opts_init) TCA_AIFO_FLAGS = []).
Proof.
  destruct (flags_presence "aifo_stfq" ["limit"; "5"]
              (set_plimit 5 opts_init) "0" (request 36) (request 36))
    as [Hzero (n' & attrs & rest & Hrun & Hbytes & Hflags & Hprint & Hshown)];
    [reflexivity|room_ok|reflexivity|room_ok|].
  split; [exact Hzero|].
  exists n', attrs, rest. split; [exact Hrun|]. split; [exact Hbytes|].
  split; [exact Hflags|]. split; [|exact Hshown].
  apply Hprint. cbn [buckets set_plimit opts_init]. lia.
Defined.

Lemma samples_ceiling_witness :
  aifo_parse_opt "aifo_stfq" ["limit"; "5"; "samples"; "1025"] (request 36)
  = (-1, request 36, [TooBig "samples"])
  /\ exists n' pad tail,
       aifo_parse_opt "aifo_stfq" ["samples"; "1024"] (request 36)
       = (0, n', [])
       /\ appended (request 36) n'
          = rtattr_bytes TCA_OPTIONS
              (rtattr_bytes TCA_AIFO_SAMPLE_SIZE (to_bytes 2 1024) ++ pad)
            ++ tail
       /\ length pad = 2%nat
       /\ aifo_print_opt (Some (appended (request 36) n'))
          = (0, [Uint "samples" "samples %u " 1024], []).
Proof.
  split.
  - apply (samples_ceiling "aifo_stfq" ["limit"; "5"] (set_plimit 5 opts_init)
             "1025" 1025 [] (request 36));
      [reflexivity|reflexivity|room_ok|vm_compute; reflexivity].
  - apply (samples_ceiling "aifo_stfq" [] opts_init "1024" 1024 []
             (request 36));
      [reflexivity|reflexivity|room_ok|vm_compute; congruence].
Defined.

Lemma failed_call_leaves_request_witness :
  aifo_parse_opt "aifo_stfq" ["limit"; "5"; "--bogus"; "1"] (request 36)
  = (-1, request 36, [Unknown "aifo_stfq" "--bogus"; Usage]).
Proof.
  apply (failed_call_leaves_request "aifo_stfq" ["limit"; "5"]
           (set_plimit 5 opts_init) "--bogus" ["1"] (request 36));
    reflexivity.
Defined.

Lemma sentinel_values_omitted_witness :
  aifo_parse_opt "aifo_stfq" ["limit"; "4294967295"; "burst"; "7"] (request 36)
  = aifo_parse_opt "aifo_stfq" ["burst"; "7"] (request 36)
  /\ aifo_parse_opt "aifo_stfq" ["hash_mask"; "0"] (request 36)
     = aifo_parse_opt "aifo_stfq" [] (request 36)
  /\ (exists n' tail,
        aifo_parse_opt "aifo_stfq" [] (request 36) = (0, n', [])
        /\ appended (request 36) n' = rtattr_bytes TCA_OPTIONS [] ++ tail
        /\ aifo_print_opt (Some (appended (request 36) n')) = (0, [], []))
  /\ aifo_parse_opt "aifo_stfq" ["burst"; "7"; "limit"; "4294967295"]
       (request 36)
     = aifo_parse_opt "aifo_stfq" ["burst"; "7"] (request 36)
  /\ aifo_parse_opt "aifo_stfq" ["limit"; "5"; "speriod"; "9"; "limit";
                                 "4294967295"] (request 36)
     = aifo_parse_opt "aifo_stfq" ["speriod"; "9"] (request 36)
  /\ (exists n' attrs tail,
        aifo_parse_opt "aifo_stfq" ["burst"; "7"; "limit"; "4294967295"]
          (request 36) = (0, n', [])
        /\ appended (request 36) n'
           = rtattr_bytes TCA_OPTIONS (wire attrs) ++ tail
        /\ payload_of TCA_AIFO_PLIMIT (map fst attrs) = None).
Proof.
  split; [|split; [|split; [|split; [|split]]]].
  - apply (sentinel_values_omitted "aifo_stfq" "4294967295" ["burst"; "7"]
             (request 36)).
    reflexivity.
  - apply (sentinel_values_omitted "aifo_stfq" "0" [] (request 36)).
    reflexivity.
  - apply (sentinel_values_omitted "aifo_stfq" "0" [] (request 36)).
    room_ok.
  - destruct (proj2 (proj2 (proj2 (proj2 (proj2 (proj2
                (sentinel_values_omitted "aifo_stfq" "0" [] (request 36)))))))
                ["burst"; "7"; "limit"; "4294967295"]
                (set_plimit 4294967295 (set_burst 7 opts_init)))
      as (_ & Hlimit & _); [reflexivity|].
    apply Hlimit. reflexivity.
  - destruct (proj2 (proj2 (proj2 (proj2 (proj2 (proj2
                (sentinel_values_omitted "aifo_stfq" "0" [] (request 36)))))))
                ["limit"; "5"; "speriod"; "9"; "limit"; "4294967295"]
                (set_plimit 4294967295
                   (set_sample_period 9 (set_plimit 5 opts_init))))
      as (_ & Hlimit & _); [reflexivity|].
    apply Hlimit. reflexivity.
  - destruct (proj2 (proj2 (proj2 (proj2 (proj2 (proj2
                (sentinel_values_omitted "aifo_stfq" "0" [] (request 36)))))))
                ["burst"; "7"; "limit"; "4294967295"]
                (set_plimit 4294967295 (set_burst 7 opts_init)))
      as (_ & _ & _ & _ & _ & _ & _ & Hblock); [reflexivity|].
    destruct Hblock as (n' & attrs & tail & Hrun & Hbytes & Hlimit & _);
      [room_ok|].
    exists n', attrs, tail. split; [exact Hrun|]. split; [exact Hbytes|].
    apply Hlimit. reflexivity.
Defined.


(** * Further properties of the code *)

(** ** ilog2 *)

(** X1. ilog2 is exact on the powers of two that an unsigned int holds. *)
Theorem ilog2_power_of_two k : 0 <= k <= 31 -> ilog2 (2 ^ k) = k.
Proof.
  intros Hk.
  assert (1 <= 2 ^ k <= 2 ^ 31) as Hpow
    by (split; [pose proof (Z.pow_pos_nonneg 2 k); lia
               |apply Z.pow_le_mono_r; lia]).
  destruct (ilog2_smallest (2 ^ k) Hpow) as (Hrange & Hle & Hmin).
  specialize (Hmin k ltac:(lia) ltac:(lia)).
  destruct (Z.eq_dec (ilog2 (2 ^ k)) k) as [Heq|Hne]; [exact Heq|].
  assert (ilog2 (2 ^ k) < k) as Hlt by lia.
  apply (Z.pow_lt_mono_r 2) in Hlt; lia.
Qed.

Lemma ilog2_power_of_two_witness : ilog2 (2 ^ 31) = 31.
Proof. apply ilog2_power_of_two. lia. Defined.

(** X2. ilog2 is monotone on the non-zero unsigned values. *)
Theorem ilog2_monotone v w : 1 <= v -> v <= w -> w < 2 ^ 32 ->
  ilog2 v <= ilog2 w.
Proof.
  intros Hv Hvw Hw. rewrite !ilog2_spec by lia.
  destruct (Z.eqb_spec v 1) as [->|Hv1], (Z.eqb_spec w 1) as [->|Hw1];
    try lia.
  - pose proof (Z.log2_nonneg (w - 1)). lia.
  - pose proof (Z.log2_le_mono (v - 1) (w - 1)). lia.
Qed.

Lemma ilog2_monotone_witness : ilog2 1000 <= ilog2 1025.
Proof. apply ilog2_monotone; lia. Defined.

(** X3. On an unsigned argument ilog2 returns 32, a shift count that
    1U << does not take, exactly for 0, where the decrement wraps, and
    for the values above 2^31. *)
Theorem ilog2_is_32 v :
  0 <= v < 2 ^ 32 -> (ilog2 v = 32 <-> v = 0 \/ 2 ^ 31 < v).
Proof.
  intros Hv. destruct (Z.eq_dec v 0) as [->|Hnz].
  - split; [left; reflexivity|reflexivity].
  - rewrite ilog2_spec by lia. destruct (Z.eqb_spec v 1) as [->|Hne].
    + split; [discriminate|lia].
    + assert (0 < v - 1) as Hpos by lia.
      pose proof (Z.log2_spec (v - 1) Hpos) as [Hlo Hhi].
      split.
      * intros Hlog. right.
        replace (Z.log2 (v - 1)) with 31 in Hlo by lia. lia.
      * intros [?|Hbig]; [lia|].
        assert (31 <= Z.log2 (v - 1)) by (apply Z.log2_le_pow2; lia).
        assert (Z.log2 (v - 1) < 32) by (apply Z.log2_lt_pow2; lia).
        lia.
Qed.

Lemma ilog2_is_32_witness : ilog2 (2 ^ 31 + 1) = 32.
Proof. apply (ilog2_is_32 (2 ^ 31 + 1)); [lia|right; lia]. Defined.

(** ** The token loop of aifo_parse_opt *)

Section TokenLoop.
Context `{ByteOrder} `{Strtoul}.


(** X4. When the call accepts its tokens, each variable holds the value
    of the last option of its name, or the value it starts with when the
    option is not given; options of other names do not touch it. *)
Theorem last_option_wins id argv o :
  aifo_parse_args id argv opts_init = Parsed o ->
  plimit o = last_value (fun a => strcmp0 a "limit") get_u32 argv 0xFFFFFFFF
  /\ burst o
     = last_value (fun a => strcmp0 a "burst") get_u32 argv 0xFFFFFFFF
  /\ buckets o
     = last_value (fun a => strcmp0 a "buckets") get_unsigned argv 0
  /\ hash_mask o
     = last_value (fun a => strcmp0 a "hash_mask") get_u32 argv 0
  /\ flow_plimit o
     = last_value (fun a => strcmp0 a "flow_limit") get_u32 argv 0xFFFFFFFF
  /\ sample_size o
     = last_value (fun a => strcmp0 a "samples") get_u16 argv 0xFFFF
  /\ sample_period o
     = last_value (fun a => strcmp0 a "speriod") get_u16 argv 0xFFFF
  /\ flags o
     = last_value (fun a => strcasecmp0 a "flags") get_unsigned argv 0.
Proof.
  intros Hparse. exact (aifo_parse_args_last_value id argv _ _ Hparse).
Qed.

Lemma parse_pair_commute id name1 val1 name2 val2 o o' :
  different_options name1 name2 ->
  aifo_parse_args id [name1; val1; name2; val2] o = Parsed o' ->
  aifo_parse_args id [name2; val2; name1; val1] o = Parsed o'.
Proof.
  intros [Hne Hflags] Hparse.
  cbn [aifo_parse_args NEXT_ARG] in Hparse.
  parse_cases Hparse;
    injection Hparse as <-;
    repeat match goal with
           | Heq : strcmp0 _ _ = true |- _ =>
             apply String.eqb_eq in Heq; subst
           end;
    try congruence;
    try (rewrite andb_false_iff in Hflags; destruct Hflags; congruence);
    cbn [aifo_parse_args NEXT_ARG];
    repeat match goal with
           | Heq : _ = false |- _ => rewrite Heq
           | Heq : _ = true |- _ => rewrite Heq
           | Heq : _ = Some _ |- _ => rewrite Heq
           end;
    cbn; repeat match goal with
           | Heq : _ = false |- _ => rewrite Heq
           | Heq : _ = true |- _ => rewrite Heq
           | Heq : _ = Some _ |- _ => rewrite Heq
           end;
    reflexivity.
Qed.

(** X5. Two neighbouring options of different names, both accepted, can
    change places: the call returns the same value, leaves the same
    request and writes the same messages. *)
Theorem neighbouring_options_commute id pre name1 val1 name2 val2 rest o o' n :
  different_options name1 name2 ->
  aifo_parse_args id pre opts_init = Parsed o ->
  aifo_parse_args id [name1; val1; name2; val2] o = Parsed o' ->
  aifo_parse_opt id (pre ++ name2 :: val2 :: name1 :: val1 :: rest) n
  = aifo_parse_opt id (pre ++ name1 :: val1 :: name2 :: val2 :: rest) n.
Proof.
  intros Hdiff Hpre Hpair.
  pose proof (parse_pair_commute id _ _ _ _ _ _ Hdiff Hpair) as Hswap.
  unfold aifo_parse_opt.
  rewrite !(aifo_parse_args_app id pre _ _ _ Hpre).
  change (name1 :: val1 :: name2 :: val2 :: rest)
    with ([name1; val1; name2; val2] ++ rest).
  change (name2 :: val2 :: name1 :: val1 :: rest)
    with ([name2; val2; name1; val1] ++ rest).
  rewrite (aifo_parse_args_app id [name1; val1; name2; val2] rest _ _ Hpair).
  rewrite (aifo_parse_args_app id [name2; val2; name1; val1] rest _ _ Hswap).
  reflexivity.
Qed.

(** X6. Only the flags option is matched without regard to case: any
    spelling of flags is taken as flags, while another spelling of one of
    the names compared with strcmp is an unknown parameter. *)
Theorem only_flags_ignores_case id arg rest o :
  (strcasecmp0 arg "flags" = true ->
   aifo_parse_args id (arg :: rest) o = aifo_parse_args id ("flags" :: rest) o)
  /\ (forall name,
        name ∈ exact_names -> lower arg = name -> arg <> name ->
        aifo_parse_args id (arg :: rest) o
        = Failed (-1) [Unknown id arg; Usage]).
Proof.
  split.
  - intros Hflags. cbn [aifo_parse_args].
    repeat match goal with
           | |- context [strcmp0 arg ?name] =>
             destruct (strcmp0 arg name) eqn:Heq;
               [apply String.eqb_eq in Heq; subst arg; discriminate Hflags|];
               clear Heq
           end.
    rewrite Hflags. reflexivity.
  - intros name Hin Hlower Hne. apply parse_unrecognized.
    unfold recognized, strcasecmp0. rewrite Hlower.
    assert (forall other, lower other = other -> name <> other ->
            strcmp0 arg other = false) as Hother.
    { intros other Hfix Hno. apply String.eqb_neq. intros ->. congruence. }
    assert (strcmp0 arg name = false) as Hname
      by (apply String.eqb_neq; exact Hne).
    unfold exact_names in Hin.
    repeat (apply elem_of_cons in Hin as [->|Hin];
            [rewrite Hname, !Hother by (reflexivity || discriminate);
             reflexivity|]).
    apply elem_of_nil in Hin as [].
Qed.

(** X7. A value that its reader refuses fails the call with -1 and the
    message Illegal with the canonical name of the option, whatever
    follows; the request is as it was. *)
Theorem refused_value_fails id pre o name get val rest n :
  aifo_parse_args id pre opts_init = Parsed o ->
  (name, get) ∈ readers -> get val = None ->
  aifo_parse_opt id (pre ++ name :: val :: rest) n = (-1, n, [Illegal name]).
Proof.
  intros Hpre Hin Hget. unfold aifo_parse_opt.
  rewrite (aifo_parse_args_app id pre _ _ _ Hpre).
  unfold readers in Hin.
  repeat (apply elem_of_cons in Hin as [[= -> ->]|Hin];
          [cbn; rewrite Hget; reflexivity|]).
  apply elem_of_nil in Hin as [].
Qed.

(** X8. The token help, where an option name is expected, ends the call
    with -1 and the usage text alone; the tokens after it are not looked at
    and the request is as it was. *)
Theorem help_ends_the_call id pre o rest n :
  aifo_parse_args id pre opts_init = Parsed o ->
  aifo_parse_opt id (pre ++ "help" :: rest) n = (-1, n, [Usage]).
Proof.
  intros Hpre. unfold aifo_parse_opt.
  rewrite (aifo_parse_args_app id pre _ _ _ Hpre). reflexivity.
Qed.

Lemma sample_size_given id argv : forall o o',
  aifo_parse_args id argv o = Parsed o' ->
  if given (fun a => strcmp0 a "samples") argv
  then 0 <= sample_size o' <= AIFO_SAMPLE_SIZE_MAX
  else sample_size o' = sample_size o.
Proof.
  induction argv as [argv IH] using (induction_ltof1 _ (@length string)).
  unfold ltof in IH. intros o o' Hparse.
  destruct argv as [|arg [|val rest]]; cbn [aifo_parse_args NEXT_ARG] in Hparse.
  - injection Hparse as <-. reflexivity.
  - parse_cases Hparse.
  - unfold given in *. cbn [option_names existsb].
    parse_cases Hparse;
      (apply IH in Hparse; [|cbn [length]; lia]);
      repeat match goal with
             | Heq : strcmp0 _ _ = true |- _ =>
               apply String.eqb_eq in Heq; subst
             end;
      repeat match goal with
             | Heq : strcmp0 _ _ = false |- _ => rewrite Heq
             end;
      cbn [strcmp0 String.eqb Ascii.eqb Bool.eqb orb] in *;
      try exact Hparse.
    destruct (existsb _ _); [exact Hparse|].
    cbn [sample_size set_sample_size] in Hparse.
    match goal with
    | Hget : get_u16 _ = Some _ |- _ => apply get_bounded_range in Hget
    end.
    lia.
Qed.

(** X9. The samples option cannot be given the value its variable starts
    with, because of its ceiling of 1024: when the tokens are accepted and
    the supplied fields fit, the nest that the call appends holds a
    SAMPLE_SIZE attribute exactly when a samples option is among the tokens,
    with the value last given; and that is when printing shows samples,
    for a buckets value of at most 2^31, where the shift of the printer is
    defined. *)
Theorem samples_presence id argv o n :
  aifo_parse_args id argv opts_init = Parsed o ->
  room n (length (fields o)) ->
  exists n' attrs rest,
    aifo_parse_opt id argv n = (0, n', [])
    /\ appended n n' = rtattr_bytes TCA_OPTIONS (wire attrs) ++ rest
    /\ payload_of TCA_AIFO_SAMPLE_SIZE (map fst attrs)
       = (if given (fun a => strcmp0 a "samples") argv
          then Some (to_bytes 2 (sample_size o)) else None)
    /\ (buckets o <= 2 ^ 31 ->
        aifo_print_opt (Some (appended n n')) = (0, printed o, []))
    /\ shown o TCA_AIFO_SAMPLE_SIZE
       = (if given (fun a => strcmp0 a "samples") argv
          then [Uint "samples" "samples %u " (sample_size o)] else []).
Proof.
  intros Hparse Hroom.
  pose proof (sample_size_given id argv _ _ Hparse) as Hgiven.
  destruct (aifo_parse_opt_fits id argv o n Hparse Hroom)
    as (attrs & rest & Hrun & Hpre & Hmap & Hok & Hwire).
  assert (buckets o <= 2 ^ 31 ->
          aifo_print_opt
            (Some (appended n (aifo_parse_opt id argv n).1.2))
          = (0, printed o, [])) as Hprint.
  { intros Hmax.
    destruct (aifo_parse_opt_round_trip id argv o n Hparse Hroom Hmax)
      as (n' & -> & Hprint).
    exact Hprint. }
  rewrite Hrun in Hprint. cbn [fst snd] in Hprint.
  eexists _, attrs, rest. split; [exact Hrun|].
  split; [apply appended_tail; exact Hpre|].
  rewrite Hmap, payload_of_fields by compute_done.
  assert (supplied o TCA_AIFO_SAMPLE_SIZE
          = (if given (fun a => strcmp0 a "samples") argv
             then Some (to_bytes 2 (sample_size o)) else None)
          /\ shown o TCA_AIFO_SAMPLE_SIZE
             = (if given (fun a => strcmp0 a "samples") argv
                then [Uint "samples" "samples %u " (sample_size o)]
                else [])) as [Hsup Hshown].
  { unfold supplied, shown. cbn [Z.eqb TCA_AIFO_SAMPLE_SIZE TCA_AIFO_PLIMIT
      TCA_AIFO_BURST TCA_AIFO_BUCKETS_LOG TCA_AIFO_HASH_MASK
      TCA_AIFO_FLOW_PLIMIT Pos.eqb].
    destruct (given _ argv).
    - unfold AIFO_SAMPLE_SIZE_MAX in Hgiven.
      rewrite (proj2 (Z.eqb_neq _ 65535)) by lia.
      rewrite u16_small by lia. split; reflexivity.
    - rewrite Hgiven. split; reflexivity. }
  split; [exact Hsup|]. split; [exact Hprint|exact Hshown].
Qed.
End TokenLoop.

(** ** The request after aifo_parse_opt *)



Section Frame.
Context `{ByteOrder}.





Context `{Strtoul}.

End Frame.

(** ** Encoding and printing together *)

Section Encoding.
Context `{ByteOrder} `{Strtoul}.

Lemma length_fields o : (length (fields o) <= 8)%nat.
Proof.
  unfold fields. change 8%nat with (length tags).
  induction tags as [|tag l IH]; [reflexivity|].
  rewrite omap_cons. destruct (supplied o tag);
    cbn [fmap option_fmap option_map length]; lia.
Qed.

(** X11. A nest never holds more than eight attributes of eight bytes:
    with 68 bytes free at the tail, below the bound of 1024, every accepted
    token sequence is encoded in full, the message grows by at most 68
    bytes, and printing the block shows the supplied fields, for a buckets
    value of at most 2^31, where the shift of the printer is defined. *)
Theorem sixty_eight_bytes_suffice id argv o n :
  aifo_parse_args id argv opts_init = Parsed o -> room n 8 ->
  buckets o <= 2 ^ 31 ->
  exists n',
    aifo_parse_opt id argv n = (0, n', [])
    /\ NLMSG_TAIL n + 4 <= nlmsg_len n' <= NLMSG_TAIL n + 68
    /\ aifo_print_opt (Some (appended n n')) = (0, printed o, []).
Proof.
  intros Hparse Hroom Hmax. pose proof (length_fields o) as Hlen.
  apply (room_le n 8 (length (fields o)) Hlen) in Hroom.
  destruct (aifo_parse_opt_fits id argv o n Hparse Hroom)
    as (attrs & rest & Hrun & _).
  destruct (aifo_parse_opt_round_trip id argv o n Hparse Hroom Hmax)
    as (n' & Hrun' & Hprint).
  exists n'. split; [exact Hrun'|]. split; [|exact Hprint].
  rewrite Hrun in Hrun'. injection Hrun' as <-. cbn [nlmsg_len]. lia.
Qed.

Lemma ilog2_idempotent v :
  1 <= v <= 2 ^ 31 -> ilog2 (Z.shiftl 1 (ilog2 v)) = ilog2 v.
Proof.
  intros Hv. destruct (ilog2_smallest v Hv) as (Hk & Hle & Hmin).
  rewrite Z.shiftl_1_l.
  assert (1 <= 2 ^ ilog2 v <= 2 ^ 31) as Hpow
    by (split; [lia|apply Z.pow_le_mono_r; lia]).
  destruct (ilog2_smallest _ Hpow) as (Hk' & Hle' & Hmin').
  specialize (Hmin' (ilog2 v) ltac:(lia) ltac:(lia)).
  assert (v <= 2 ^ ilog2 (2 ^ ilog2 v)) as Hv' by lia.
  specialize (Hmin (ilog2 (2 ^ ilog2 v)) ltac:(lia) Hv'). lia.
Qed.

(** X12. Printing shows buckets as 1 << ilog2 v; giving that number back
    as the buckets option, for 1 <= v <= 2^31, makes the call do exactly
    what it did for v: the same return value, request and messages. *)
Theorem buckets_printed_value_reencodes id pre o val v val' n :
  aifo_parse_args id pre opts_init = Parsed o ->
  get_unsigned val = Some v -> 1 <= v <= 2 ^ 31 ->
  get_unsigned val' = Some (Z.shiftl 1 (ilog2 v)) ->
  aifo_parse_opt id (pre ++ ["buckets"; val']) n
  = aifo_parse_opt id (pre ++ ["buckets"; val]) n.
Proof.
  intros Hpre Hget Hv Hget'. unfold aifo_parse_opt.
  rewrite !(aifo_parse_args_app id pre _ _ _ Hpre).
  rewrite (parse_buckets id val v) by exact Hget.
  rewrite (parse_buckets id val' _) by exact Hget'.
  cbn [aifo_parse_args].
  destruct (ilog2_smallest v Hv) as (Hk & Hle & _).
  assert (aifo_add_attrs (set_buckets (Z.shiftl 1 (ilog2 v)) o)
          = aifo_add_attrs (set_buckets v o)) as ->; [|reflexivity].
  unfold aifo_add_attrs.
  cbn [plimit burst buckets hash_mask flow_plimit sample_size sample_period
       flags flags_upd set_buckets].
  rewrite ilog2_idempotent by exact Hv.
  rewrite Z.shiftl_1_l.
  rewrite (proj2 (Z.eqb_neq (2 ^ ilog2 v) 0)) by lia.
  rewrite (proj2 (Z.eqb_neq v 0)) by lia.
  reflexivity.
Qed.
End Encoding.

(** ** What aifo_print_opt reads *)

Section Decoding.
Context `{ByteOrder}.

Lemma payload_of_attr_ok attrs tag data :
  Forall attr_ok attrs -> payload_of tag (map fst attrs) = Some data ->
  4 + Z.of_nat (length data) < 2 ^ 16.
Proof.
  induction attrs as [|[[type data'] pad] attrs IH]; [discriminate|].
  intros [(_ & Hlen & _) Hok]%Forall_cons. cbn [map fst payload_of].
  destruct (type =? tag); [|apply IH; exact Hok].
  intros [= <-]. exact Hlen.
Qed.

Lemma peek_app_le n data more :
  (n <= length data)%nat -> peek n (data ++ more) = of_bytes (take n data).
Proof. intros Hn. unfold peek. rewrite take_app_le by exact Hn. reflexivity. Qed.

Lemma print_if_decoded attrs rest tag size (w : nat) (pr : Z -> out) :
  Forall attr_ok attrs -> tag ∈ tags ->
  (forall data,
     payload_of tag (map fst attrs) = Some data ->
     (size <=? Z.of_nat (length data)) = (w <=? length data)%nat) ->
  print_if (tb_fill (replicate (Z.to_nat (TCA_AIFO_MAX + 1)) None) attrs rest)
    tag size (fun rta => pr (peek w (RTA_DATA rta)))
  = match payload_of tag (map fst attrs) with
    | Some data =>
      if (w <=? length data)%nat then [pr (of_bytes (take w data))] else []
    | None => []
    end.
Proof.
  intros Hok Htag Hsize. unfold print_if.
  rewrite tb_get_tb_fill, tb_get_replicate;
    [|apply tag_bounds; exact Htag|apply length_replicate|exact Hok].
  pose proof (find_attr_spec attrs rest tag) as Hfind.
  destruct (find_attr tag attrs rest) as [p|]; [|rewrite Hfind; reflexivity].
  destruct Hfind as (data & more & -> & Hdata). rewrite Hdata.
  pose proof (payload_of_attr_ok attrs tag data Hok Hdata) as Hlen.
  rewrite RTA_PAYLOAD_rtattr_bytes by exact Hlen.
  rewrite (Hsize data Hdata).
  destruct (Nat.leb_spec w (length data)) as [Hw|]; [|reflexivity].
  rewrite RTA_DATA_rtattr_bytes, peek_app_le by exact Hw. reflexivity.
Qed.

Lemma leb_Z_nat (w : nat) (data : list Z) :
  (Z.of_nat w <=? Z.of_nat (length data)) = (w <=? length data)%nat.
Proof.
  destruct (Z.leb_spec (Z.of_nat w) (Z.of_nat (length data))),
    (Nat.leb_spec w (length data)); try reflexivity; lia.
Qed.

Lemma parse_rtattr_nested_any type attrs post :
  Forall attr_ok attrs -> 4 + Z.of_nat (length (wire attrs)) < 2 ^ 16 ->
  parse_rtattr_nested TCA_AIFO_MAX (rtattr_bytes type (wire attrs) ++ post)
  = (0, tb_fill (replicate (Z.to_nat (TCA_AIFO_MAX + 1)) None) attrs post,
     []).
Proof.
  intros Hok Hsize. unfold parse_rtattr_nested, parse_rtattr_flags.
  rewrite RTA_DATA_rtattr_bytes, RTA_PAYLOAD_rtattr_bytes by exact Hsize.
  rewrite int_small by lia.
  rewrite parse_rtattr_loop_wire;
    [reflexivity|rewrite Nat2Z.id; apply length_attrs_wire|exact Hok|lia].
Qed.

(** X13. What the printer makes of any block of well-formed attributes:
    for each tag, in the fixed order of the code, it shows the first
    attribute of that type when its payload holds the bytes read, four or
    for the two sample fields two, and reads only those bytes; attributes
    of other types, later attributes of a type already seen, shorter
    payloads, the type of the outer attribute and whatever follows the
    block are ignored. The first BURST payload is taken to have fewer than
    two bytes or at least four, and the first BUCKETS_LOG value that is
    read to be below 32, so that the shift is defined. *)
Theorem aifo_print_opt_decodes type attrs post :
  Forall attr_ok attrs -> 4 + Z.of_nat (length (wire attrs)) < 2 ^ 16 ->
  burst_readable (map fst attrs) -> shift_defined (map fst attrs) ->
  aifo_print_opt (Some (rtattr_bytes type (wire attrs) ++ post))
  = (0, decoded (map fst attrs), []).
Proof.
  intros Hok Hsize Hburst Hshift. unfold aifo_print_opt.
  rewrite parse_rtattr_nested_any by assumption.
  unfold rta_getattr_u32, rta_getattr_u16.
  rewrite (print_if_decoded attrs post TCA_AIFO_PLIMIT sizeof_u32 4
             (Uint "limit" "limit %up ") Hok);
    [|compute_done|intros; apply (leb_Z_nat 4)].
  rewrite (print_if_decoded attrs post TCA_AIFO_BURST sizeof_u16 4
             (Uint "burst" "burst %u ") Hok); [|compute_done|].
  2:{ intros data Hdata. unfold burst_readable in Hburst.
      rewrite Hdata in Hburst. unfold sizeof_u16.
      destruct (Z.leb_spec 2 (Z.of_nat (length data))),
        (Nat.leb_spec 4 (length data)); try reflexivity; lia. }
  rewrite (print_if_decoded attrs post TCA_AIFO_BUCKETS_LOG sizeof_u32 4
             (fun x => if x <? 32
                       then Uint "buckets" "buckets %u " (Z.shiftl 1 x)
                       else Undefined "buckets" "buckets %u ")
             Hok);
    [|compute_done|intros; apply (leb_Z_nat 4)].
  rewrite (print_if_decoded attrs post TCA_AIFO_HASH_MASK sizeof_u32 4
             (Uint "hash_mask" "hash_mask %u ") Hok);
    [|compute_done|intros; apply (leb_Z_nat 4)].
  rewrite (print_if_decoded attrs post TCA_AIFO_FLOW_PLIMIT sizeof_u32 4
             (Uint "flow_limit" "flow_limit %up ") Hok);
    [|compute_done|intros; apply (leb_Z_nat 4)].
  rewrite (print_if_decoded attrs post TCA_AIFO_SAMPLE_SIZE sizeof_u16 2
             (Uint "samples" "samples %u ") Hok);
    [|compute_done|intros; apply (leb_Z_nat 2)].
  rewrite (print_if_decoded attrs post TCA_AIFO_SAMPLE_PERIOD sizeof_u16 2
             (Uint "speriod" "speriod %u ") Hok);
    [|compute_done|intros; apply (leb_Z_nat 2)].
  rewrite (print_if_decoded attrs post TCA_AIFO_FLAGS sizeof_u32 4
             (Uint "flags" "flags 0x%X ") Hok);
    [|compute_done|intros; apply (leb_Z_nat 4)].
  unfold decoded, tags. cbn [map concat]. rewrite app_nil_r.
  unfold shift_defined in Hshift.
  destruct (payload_of TCA_AIFO_BUCKETS_LOG (map fst attrs)) as [data|];
    [|reflexivity].
  change (width TCA_AIFO_BUCKETS_LOG) with 4%nat.
  destruct (Nat.leb_spec 4 (length data)) as [Hlen|]; [|reflexivity].
  rewrite (proj2 (Z.ltb_lt _ 32)) by (apply Hshift; exact Hlen).
  reflexivity.
Qed.

Lemma print_if_key tb tag size print k :
  (forall rta, key (print rta) = k) ->
  map key (print_if tb tag size print) `sublist_of` [k].
Proof.
  intros Hkey. unfold print_if.
  destruct (tb_get tb tag) as [rta|]; [|apply sublist_nil_l].
  destruct (size <=? RTA_PAYLOAD rta); [|apply sublist_nil_l].
  cbn [map]. rewrite Hkey. reflexivity.
Qed.

(** X14. Whatever bytes it is given, the printer shows each key at most
    once and the keys in one order: limit, burst, buckets, hash_mask,
    flow_limit, samples, speriod, flags. *)
Theorem printed_keys_in_order opt :
  map key (aifo_print_opt opt).1.2 `sublist_of` print_keys.
Proof.
  destruct opt as [opt|]; [|apply sublist_nil_l]. unfold aifo_print_opt.
  destruct (parse_rtattr_nested TCA_AIFO_MAX opt) as [[r tb] err].
  cbn [fst snd]. rewrite !map_app. unfold print_keys.
  repeat (apply (sublist_app _ [_]);
          [apply print_if_key; intros rta; cbv zeta;
           try destruct (_ <? _); reflexivity|]).
  apply print_if_key. reflexivity.
Qed.

Lemma peek_drop_app n off st more :
  (off + n <= length st)%nat ->
  peek n (drop off (st ++ more)) = peek n (drop off st).
Proof.
  intros Hn. unfold peek. rewrite drop_app_le by lia.
  rewrite take_app_le by (rewrite length_drop; lia). reflexivity.
Qed.

(** X15. The statistics printer reads the attribute header and the 40
    bytes of struct tc_aifo_xstats and nothing else: what follows them in
    the payload or after the attribute has no effect on the result. *)
Theorem xstats_reads_forty_bytes hdr st more more' :
  length hdr = 4%nat -> length st = 40%nat ->
  aifo_print_xstats (Some (hdr ++ st ++ more))
  = aifo_print_xstats (Some (hdr ++ st ++ more')).
Proof.
  intros Hhdr Hst. unfold aifo_print_xstats.
  assert (forall m, RTA_PAYLOAD (hdr ++ st ++ m) = RTA_PAYLOAD (hdr ++ [])) as Hp.
  { intros m. unfold RTA_PAYLOAD, rta_len, peek.
    rewrite !take_app_le by lia. reflexivity. }
  assert (forall m, RTA_DATA (hdr ++ st ++ m) = st ++ m) as Hd.
  { intros m. unfold RTA_DATA. change (Z.to_nat (RTA_LENGTH 0)) with 4%nat.
    apply drop_app_length'. symmetry. exact Hhdr. }
  rewrite !Hp, !Hd.
  unfold off_flows, off_flows_gc, off_alloc_errors, off_no_mark,
    off_drop_mark, off_qlen_peak, off_backlog_peak, off_quant_avg_1k.
  rewrite !(peek_drop_app _ _ st) by lia. reflexivity.
Qed.
End Decoding.

(** ** Runs of the further properties

    The same host as above: little-endian, decimal tokens. *)

Lemma last_option_wins_witness :
  20 = last_value (fun a => strcmp0 a "limit") get_u32
         ["limit"; "10"; "burst"; "7"; "limit"; "20"] 0xFFFFFFFF
  /\ 7 = last_value (fun a => strcmp0 a "burst") get_u32
           ["limit"; "10"; "burst"; "7"; "limit"; "20"] 0xFFFFFFFF.
Proof.
  destruct (last_option_wins "aifo_stfq"
              ["limit"; "10"; "burst"; "7"; "limit"; "20"]
              (set_plimit 20 (set_burst 7 (set_plimit 10 opts_init))))
    as (Hlimit & Hburst & _); [reflexivity|].
  split; [exact Hlimit|exact Hburst].
Defined.

Lemma neighbouring_options_commute_witness :
  aifo_parse_opt "aifo_stfq"
    ["limit"; "5"; "FLAGS"; "1"; "samples"; "7"; "speriod"; "x"] (request 36)
  = aifo_parse_opt "aifo_stfq"
      ["limit"; "5"; "samples"; "7"; "FLAGS"; "1"; "speriod"; "x"]
      (request 36).
Proof.
  apply (neighbouring_options_commute "aifo_stfq" ["limit"; "5"]
           "samples" "7" "FLAGS" "1" ["speriod"; "x"]
           (set_plimit 5 opts_init)
           (set_flags 1 (set_sample_size 7 (set_plimit 5 opts_init)))
           (request 36)).
  - split; [discriminate|reflexivity].
  - reflexivity.
  - reflexivity.
Defined.

Lemma only_flags_ignores_case_witness :
  aifo_parse_args "aifo_stfq" ["FlAgS"; "3"] opts_init
  = aifo_parse_args "aifo_stfq" ["flags"; "3"] opts_init
  /\ aifo_parse_args "aifo_stfq" ["Limit"; "3"] opts_init
     = Failed (-1) [Unknown "aifo_stfq" "Limit"; Usage].
Proof.
  split.
  - apply (only_flags_ignores_case "aifo_stfq" "FlAgS" ["3"] opts_init).
    reflexivity.
  - apply (proj2 (only_flags_ignores_case "aifo_stfq" "Limit" ["3"]
                    opts_init) "limit").
    + apply list_elem_of_here.
    + reflexivity.
    + discriminate.
Defined.

Lemma refused_value_fails_witness :
  aifo_parse_opt "aifo_stfq" ["limit"; "5"; "burst"; "x7"; "bogus"]
    (request 36)
  = (-1, request 36, [Illegal "burst"]).
Proof.
  apply (refused_value_fails "aifo_stfq" ["limit"; "5"]
           (set_plimit 5 opts_init) "burst" get_u32 "x7" ["bogus"]
           (request 36)).
  - reflexivity.
  - apply list_elem_of_further, list_elem_of_further, list_elem_of_here.
  - reflexivity.
Defined.

Lemma help_ends_the_call_witness :
  aifo_parse_opt "aifo_stfq" ["limit"; "5"; "help"; "bogus"] (request 36)
  = (-1, request 36, [Usage]).
Proof.
  apply (help_ends_the_call "aifo_stfq" ["limit"; "5"]
           (set_plimit 5 opts_init) ["bogus"] (request 36)).
  reflexivity.
Defined.

Lemma samples_presence_witness :
  (exists n' attrs rest,
     aifo_parse_opt "aifo_stfq" ["samples"; "7"] (request 36) = (0, n', [])
     /\ appended (request 36) n'
        = rtattr_bytes TCA_OPTIONS (wire attrs) ++ rest
     /\ payload_of TCA_AIFO_SAMPLE_SIZE (map fst attrs)
        = Some (to_bytes 2 7)
     /\ aifo_print_opt (Some (appended (request 36) n'))
        = (0, [Uint "samples" "samples %u " 7], [])
     /\ shown (set_sample_size 7 opts_init) TCA_AIFO_SAMPLE_SIZE
        = [Uint "samples" "samples %u " 7])
  /\ (exists n' attrs rest,
        aifo_parse_opt "aifo_stfq" ["limit"; "5"] (request 36) = (0, n', [])
        /\ appended (request 36) n'
           = rtattr_bytes TCA_OPTIONS (wire attrs) ++ rest
        /\ payload_of TCA_AIFO_SAMPLE_SIZE (map fst attrs) = None
        /\ aifo_print_opt (Some (appended (request 36) n'))
           = (0, [Uint "limit" "limit %up " 5], [])
        /\ shown (set_plimit 5 opts_init) TCA_AIFO_SAMPLE_SIZE = []).
Proof.
  split.
  - destruct (samples_presence "aifo_stfq" ["samples"; "7"]
                (set_sample_size 7 opts_init) (request 36))
      as (n' & attrs & rest & Hrun & Hbytes & Hsamples & Hprint & Hshown);
      [reflexivity|room_ok|].
    exists n', attrs, rest. split; [exact Hrun|]. split; [exact Hbytes|].
    split; [exact Hsamples|]. split; [|exact Hshown].
    apply Hprint. cbn [buckets set_sample_size opts_init]. lia.
  - destruct (samples_presence "aifo_stfq" ["limit"; "5"]
                (set_plimit 5 opts_init) (request 36))
      as (n' & attrs & rest & Hrun & Hbytes & Hsamples & Hprint & Hshown);
      [reflexivity|room_ok|].
    exists n', attrs, rest. split; [exact Hrun|]. split; [exact Hbytes|].
    split; [exact Hsamples|]. split; [|exact Hshown].
    apply Hprint. cbn [buckets set_plimit opts_init]. lia.
Defined.


Lemma sixty_eight_bytes_suffice_witness :
  exists n',
    aifo_parse_opt "aifo_stfq"
      ["flags"; "0"; "speriod"; "9"; "samples"; "8"; "flow_limit"; "7";
       "hash_mask"; "6"; "buckets"; "5"; "burst"; "4"; "limit"; "3"]
      (request 36) = (0, n', [])
    /\ 36 + 4 <= nlmsg_len n' <= 36 + 68
    /\ aifo_print_opt (Some (appended (request 36) n'))
       = (0,
          [ Uint "limit" "limit %up " 3; Uint "burst" "burst %u " 4;
            Uint "buckets" "buckets %u " 8;
            Uint "hash_mask" "hash_mask %u " 6;
            Uint "flow_limit" "flow_limit %up " 7;
            Uint "samples" "samples %u " 8; Uint "speriod" "speriod %u " 9;
            Uint "flags" "flags 0x%X " 0 ], []).
Proof.
  apply (sixty_eight_bytes_suffice "aifo_stfq"
           ["flags"; "0"; "speriod"; "9"; "samples"; "8"; "flow_limit"; "7";
            "hash_mask"; "6"; "buckets"; "5"; "burst"; "4"; "limit"; "3"]
           (set_plimit 3
              (set_burst 4
                 (set_buckets 5
                    (set_hash_mask 6
                       (set_flow_plimit 7
                          (set_sample_size 8
                             (set_sample_period 9
                                (set_flags 0 opts_init))))))))
           (request 36)).
  - reflexivity.
  - room_ok.
  - cbn. lia.
Defined.

Lemma buckets_printed_value_reencodes_witness :
  aifo_parse_opt "aifo_stfq" ["limit"; "5"; "buckets"; "1024"] (request 36)
  = aifo_parse_opt "aifo_stfq" ["limit"; "5"; "buckets"; "1000"] (request 36).
Proof.
  apply (buckets_printed_value_reencodes "aifo_stfq" ["limit"; "5"]
           (set_plimit 5 opts_init) "1000" 1000 "1024" (request 36)).
  - reflexivity.
  - reflexivity.
  - lia.
  - reflexivity.
Defined.

Lemma aifo_print_opt_decodes_witness :
  aifo_print_opt
    (Some
       (rtattr_bytes TCA_OPTIONS
          (wire
             [ (9, [1; 2; 3; 4], []);
               (TCA_AIFO_PLIMIT, [5; 0; 0; 0], []);
               (TCA_AIFO_PLIMIT, [6; 0; 0; 0], []);
               (TCA_AIFO_SAMPLE_SIZE, [7; 0], [0; 0]);
               (TCA_AIFO_FLAGS, [1; 0], [0; 0]);
               (TCA_AIFO_BUCKETS_LOG, [31; 0; 0; 0], []);
               (TCA_AIFO_HASH_MASK, [1; 0; 0; 0; 9; 9; 9; 9], []) ])
        ++ [255; 255]))
  = (0,
     [ Uint "limit" "limit %up " 5; Uint "buckets" "buckets %u " (2 ^ 31);
       Uint "hash_mask" "hash_mask %u " 1; Uint "samples" "samples %u " 7 ],
     []).
Proof.
  refine (eq_trans
            (aifo_print_opt_decodes TCA_OPTIONS
               [ (9, [1; 2; 3; 4], []);
                 (TCA_AIFO_PLIMIT, [5; 0; 0; 0], []);
                 (TCA_AIFO_PLIMIT, [6; 0; 0; 0], []);
                 (TCA_AIFO_SAMPLE_SIZE, [7; 0], [0; 0]);
                 (TCA_AIFO_FLAGS, [1; 0], [0; 0]);
                 (TCA_AIFO_BUCKETS_LOG, [31; 0; 0; 0], []);
                 (TCA_AIFO_HASH_MASK, [1; 0; 0; 0; 9; 9; 9; 9], []) ]
               [255; 255] _ _ _ _) _).
  - repeat (apply Forall_cons_2;
            [vm_compute; repeat split; congruence|]).
    apply Forall_nil_2.
  - vm_compute. reflexivity.
  - vm_compute. exact I.
  - vm_compute. intros _. reflexivity.
  - vm_compute. reflexivity.
Defined.

Lemma xstats_reads_forty_bytes_witness :
  aifo_print_xstats (Some ([48; 0; 7; 0] ++ replicate 40 1 ++ [9; 9; 9; 9]))
  = aifo_print_xstats (Some ([48; 0; 7; 0] ++ replicate 40 1 ++ [0; 0; 0; 0])).
Proof.
  apply (xstats_reads_forty_bytes [48; 0; 7; 0] (replicate 40 1)
           [9; 9; 9; 9] [0; 0; 0; 0]);
    reflexivity.
Defined.
